(** * Notero: the change-coalescing synchronisation engine

    A shallow embedding of [src/content/notion.ts] (the [Notion] client
    wrapper: text helpers, schema cache, property mapper, upsert) and of the
    [Notero] class that follows it in the same file (notifier callback,
    debounce queue, sync coordinator, batch loop).

    - JavaScript strings are sequences of UTF-16 code units ([jsstring]).
    - Asynchronous functions that run to completion between two interleaving
      points are state transformers; the places where the source suspends
      ([await], [setTimeout]) are the boundaries between transformers.
    - Calls to the remote service and to the host application are recorded in
      a trace, and their answers come from an environment record. *)

From Stdlib Require Import ZArith NArith List Lia Bool.
From stdpp Require Import base option list strings gmap.

Open Scope Z_scope.

(** ** JavaScript values used by the source *)

Module JS.

(** A string is its sequence of UTF-16 code units; [length] is [.length]. *)
Abbreviation jsstring := (list N).

Definition code_unit (c : Ascii.ascii) : N := Ascii.N_of_ascii c.

(** The code units of an ASCII literal. *)
Fixpoint str (s : string) : jsstring :=
  match s with
  | EmptyString => []
  | String c s' => code_unit c :: str s'
  end.

Definition COMMA : N := 44%N.
Definition SEMICOLON : N := 59%N.
Definition LINE_FEED : N := 10%N.

(** Truthiness of a [string | null]: [null] and the empty string are falsy. *)
Definition truthy (v : option jsstring) : bool :=
  match v with
  | Some (_ :: _) => true
  | _ => false
  end.

(** [a || b] on [string | null] operands. *)
Definition or_else (a b : option jsstring) : option jsstring :=
  if truthy a then a else b.

(** [String.prototype.substr(0, n)]: the first [n] code units. *)
Definition substr0 (n : nat) (text : jsstring) : jsstring := take n text.

(** [text.replace(/c/g, d)] for a single-unit pattern. *)
Definition replace_all (c d : N) (text : jsstring) : jsstring :=
  (fun u => if N.eqb u c then d else u) <$> text.

(** [Array.prototype.join(sep)] on an array of strings. *)
Fixpoint join (sep : jsstring) (parts : list jsstring) : jsstring :=
  match parts with
  | [] => []
  | [p] => p
  | p :: rest => p ++ sep ++ join sep rest
  end.

(** [new Set(xs)]: the distinct elements in order of first insertion. *)
Definition Set_add (acc : list Z) (x : Z) : list Z :=
  if bool_decide (x ∈ acc) then acc else acc ++ [x].

Definition Set_of (xs : list Z) : list Z := foldl Set_add [] xs.

End JS.

Import JS.

(** ** Errors, results and the effect trace *)

(** A thrown value, as far as the source inspects it:
    [APIResponseError.isAPIResponseError(error)], [error.code],
    [String(error)] and [error.stack]. *)
Record JSError := {
  isAPIResponseError : bool;
  code : option string;
  message : string;
  stack : option string;
}.

Inductive Result (A : Type) : Type :=
| Ok (a : A)
| Throw (e : JSError).
Arguments Ok {A} a.
Arguments Throw {A} e.

(** The request value a field producer returns. *)
Inductive PropertyRequest :=
| TextArray (texts : list jsstring)      (* [{ text: { content } }, ...] *)
| UrlValue (u : option jsstring)         (* string | null *)
| SelectValue (name : jsstring)          (* { name } *)
| MultiSelectValue (names : list jsstring)
| NumberValue (n : option Z).            (* number | null *)

(** One entry of a page payload: [{ type, [type]: request }]; the entry of
    the page title is [{ title: request }], without a [type] key. *)
Record DatabasePageProperty := {
  ptype : option string;
  pkey : string;
  prequest : PropertyRequest;
}.

(** A database schema maps a property name to the [type] of its
    configuration; a page payload maps a key to its entry. *)
Abbreviation DatabaseProperties := (gmap string string).
Abbreviation DatabasePageProperties := (gmap string DatabasePageProperty).

(** The part of a create or update response the source reads. *)
Record PageResponse := {
  page_id : string;
  page_url : option string;              (* ['url' in response] *)
}.

(** The domain record: a [Zotero.Item] as far as the source reads it, with
    the value of each [NoteroItem] getter. *)
Record NoteroItem := {
  id : Z;
  deleted : bool;
  isRegularItem : bool;
  getCollections : list Z;
  getNotionPageID : option string;
  getAbstract : option jsstring;
  getAuthors : list jsstring;
  getDOI : option jsstring;
  getEditors : list jsstring;
  getFilePath : option jsstring;
  getFullCitation : option jsstring;
  getInTextCitation : option jsstring;
  getItemType : jsstring;
  getTags : list jsstring;
  getTitle : option jsstring;
  getURL : option jsstring;
  getYear : option Z;
  getZoteroURI : option jsstring;
}.

(** Everything the program does to the outside, in the order it happens. *)
Inductive Effect :=
| DatabasesRetrieve (database_id : string)
| PagesUpdate (pid : string) (properties : DatabasePageProperties)
| PagesCreate (database_id : string) (properties : DatabasePageProperties)
| SaveNotionTag (item : Z)
| SaveNotionLinkAttachment (item : Z) (url : string)
| ChangeHeadline (text : string)
| ShowProgressWindow
| NewItemProgress
| SetText (step total : nat)             (* `Item ${step} of ${total}` *)
| SetProgress (step total : nat)
| SetIcon
| StartCloseTimer
| Log (text : string) (type : string)    (* [Zotero.log(text, type)] *)
| SetError
| AddDescription (text : string).

Abbreviation Trace := (list Effect).

Definition is_retrieve (e : Effect) : bool :=
  match e with DatabasesRetrieve _ => true | _ => false end.
Definition is_update (e : Effect) : bool :=
  match e with PagesUpdate _ _ => true | _ => false end.
Definition is_create (e : Effect) : bool :=
  match e with PagesCreate _ _ => true | _ => false end.
Definition is_remote (e : Effect) : bool :=
  is_retrieve e || is_update e || is_create e.
Definition is_setText (e : Effect) : bool :=
  match e with SetText _ _ => true | _ => false end.
Definition is_log (e : Effect) : bool :=
  match e with Log _ _ => true | _ => false end.

(** How many calls of a kind a trace holds. *)
Definition count (kind : Effect -> bool) (t : Trace) : nat :=
  length (List.filter kind t).

(** The update and create calls made after [before], in order. *)
Definition upsert_calls (before after : Trace) : Trace :=
  List.filter (fun e => is_update e || is_create e)
    (drop (length before) after).

(** The [setText] effects after [before], in order. *)
Definition attempts (before after : Trace) : Trace :=
  List.filter is_setText (drop (length before) after).

(** The levels the client of the remote service logs at. *)
Inductive LogLevel := DEBUG | INFO | WARN | ERROR.

(** A call of [Zotero.log], by its two arguments. *)
Abbreviation ZoteroLog := (string * string)%type.

(** The client as the constructor of the wrapper sets it up: the access
    token and the logger.  A logger is given by the call of [Zotero.log]
    it makes; its third argument is the text [JSON.stringify] gives for the
    extra information. *)
Record Client := {
  auth : string;
  clientLogger : LogLevel -> string -> string -> ZoteroLog;
}.

(** The collaborators that are not part of the source: the remote service
    behind [Client], the writes of [NoteroItem], the item store and the
    string bundle.  An answer may depend on everything that happened before
    the call.  [log_on_failure] is what the client passes to its logger
    when a request fails with the given error: level, message and extra
    information.  The constructor of the wrapper leaves the log level of the
    client at its default, at which a request that succeeds passes nothing
    to the logger. *)
Record Host := {
  log_on_failure : JSError -> list (LogLevel * string * string);
  databases_retrieve : Trace -> string -> Result DatabaseProperties;
  pages_update :
    Trace -> string -> DatabasePageProperties -> Result PageResponse;
  pages_create :
    Trace -> string -> DatabasePageProperties -> Result PageResponse;
  saveNotionTag : Trace -> NoteroItem -> Result unit;
  saveNotionLinkAttachment : Trace -> NoteroItem -> string -> Result unit;
  Items_get : Z -> option NoteroItem;
  loadSyncEnabledCollectionIDs : list Z;
  GetStringFromName : string -> string;
}.

(** The preferences read through [getNoteroPref]. *)
Record Prefs := {
  notionToken : option string;
  notionDatabaseID : option string;
  syncOnModifyItems : bool;
}.

(** ** The Notion wrapper *)

Module Notion.

Definition TEXT_CONTENT_MAX_LENGTH : nat := 2000.

Definition ObjectNotFound : string := "object_not_found".

Definition truncateTextToMaxLength (text : jsstring) : jsstring :=
  substr0 TEXT_CONTENT_MAX_LENGTH text.

Definition sanitizeSelectOption (text : jsstring) : jsstring :=
  replace_all COMMA SEMICOLON text.

Definition buildRichText (content : option jsstring) : list jsstring :=
  match content with
  | Some (u :: text) => [truncateTextToMaxLength (u :: text)]
  | _ => []
  end.

(** [Notion.logger]: every message of the client goes to [Zotero.log], as
    an error at level [ERROR] and as a warning otherwise. *)
Definition logger (level : LogLevel) (message extraInfo : string)
  : ZoteroLog :=
  (message +:+ " - " +:+ extraInfo,
   match level with ERROR => "error" | _ => "warning" end).

(** An instance: the client, the target database and the memoised
    schema. *)
Record Instance := {
  client : Client;
  databaseID : string;
  _databaseProperties : option DatabaseProperties;
}.

(** The constructor. *)
Definition new (authToken databaseID : string) : Instance :=
  {| client := {| auth := authToken; clientLogger := logger |};
     databaseID := databaseID; _databaseProperties := None |}.

(** The instance with [props] stored as its schema. *)
Definition stored (i : Instance) (props : DatabaseProperties) : Instance :=
  {| client := client i; databaseID := databaseID i;
     _databaseProperties := Some props |}.

(** The state an asynchronous method runs in. *)
Record Store := {
  this : Instance;
  trace : Trace;
}.

Definition M (A : Type) : Type := Store -> Result A * Store.

Definition ret {A} (a : A) : M A := fun s => (Ok a, s).

Definition throw {A} (e : JSError) : M A := fun s => (Throw e, s).

Definition bind {A B} (m : M A) (k : A -> M B) : M B :=
  fun s =>
    match m s with
    | (Ok a, s') => k a s'
    | (Throw e, s') => (Throw e, s')
    end.

Definition try_catch {A} (m : M A) (handler : JSError -> M A) : M A :=
  fun s =>
    match m s with
    | (Ok a, s') => (Ok a, s')
    | (Throw e, s') => handler e s'
    end.

Definition emit (e : Effect) : M unit :=
  fun s => (Ok tt, {| this := this s; trace := trace s ++ [e] |}).

(** A call to a collaborator: it is recorded, then answered. *)
Definition call {A} (e : Effect) (answer : Trace -> Result A) : M A :=
  fun s => (answer (trace s), {| this := this s; trace := trace s ++ [e] |}).

(** [m] only adds effects to the trace, all of them of the given kind. *)
Definition only {A} (kind : Effect -> bool) (m : M A) : Prop :=
  forall s r s', m s = (r, s') ->
    exists extra,
      trace s' = trace s ++ extra /\ Forall (fun e => kind e = true) extra.

(** The store after further effects. *)
Definition extend (s : Store) (es : Trace) : Store :=
  {| this := this s; trace := trace s ++ es |}.

Definition set_databaseProperties (props : DatabaseProperties) : M unit :=
  fun s => (Ok tt, {| this := stored (this s) props; trace := trace s |}).

End Notion.

Declare Scope notion_scope.
Delimit Scope notion_scope with notion.
Notation "'let*' x ':=' m 'in' k" := (Notion.bind m (fun x => k))
  (at level 10, x name, m at level 100, k at level 200) : notion_scope.
Notation "m ';;' k" := (Notion.bind m (fun _ => k))
  (at level 100, k at level 200, right associativity) : notion_scope.

Module NotionMethods.

Import Notion.
Local Open Scope notion_scope.

Section WithHost.

Variable host : Host.

(** What the client has its logger write when a request fails. *)
Definition failure_log (c : Client) (error : JSError) : Trace :=
  (fun entry : LogLevel * string * string =>
     let written :=
       clientLogger c (fst (fst entry)) (snd (fst entry)) (snd entry) in
     Log (fst written) (snd written))
  <$> log_on_failure host error.

(** What a request adds to the trace when it is answered with [r]. *)
Definition requested {A} (c : Client) (e : Effect) (r : Result A) : Trace :=
  e :: match r with
       | Ok _ => []
       | Throw error => failure_log c error
       end.

(** A request through the client: it is recorded and answered, and a
    failure is reported to the logger before it is thrown. *)
Definition request {A} (e : Effect) (answer : Trace -> Result A) : M A :=
  fun s =>
    match answer (trace s) with
    | Ok a => (Ok a, extend s [e])
    | Throw error =>
        (Throw error, extend s (e :: failure_log (client (this s)) error))
    end.

(** [getDatabaseProperties] up to its [await]: a cache hit returns at once
    ([Some]); otherwise the retrieval call is issued and the caller is
    suspended ([None]). *)
Definition getDatabaseProperties_start (s : Store)
  : option DatabaseProperties * Store :=
  match _databaseProperties (this s) with
  | Some props => (Some props, s)
  | None =>
      (None,
       {| this := this s;
          trace := trace s ++ [DatabasesRetrieve (databaseID (this s))] |})
  end.

(** [getDatabaseProperties] from the answer of the retrieval on. *)
Definition getDatabaseProperties_resume
    (database : Result DatabaseProperties) : M DatabaseProperties :=
  match database with
  | Ok props => set_databaseProperties props;; ret props
  | Throw e =>
      fun s => (Throw e, extend s (failure_log (client (this s)) e))
  end.

(** The whole method when nothing else runs in between. *)
Definition getDatabaseProperties : M DatabaseProperties :=
  fun s =>
    match getDatabaseProperties_start s with
    | (Some props, s') => (Ok props, s')
    | (None, s') =>
        getDatabaseProperties_resume
          (databases_retrieve host (trace s) (databaseID (this s))) s'
    end.

Record Definition_ := {
  name : string;
  type : string;
  buildRequest : unit -> PropertyRequest;
}.

Definition propertyDefinitions (item : NoteroItem) : list Definition_ := [
  {| name := "Abstract"; type := "rich_text";
     buildRequest := fun _ => TextArray (buildRichText (getAbstract item)) |};
  {| name := "Authors"; type := "rich_text";
     buildRequest := fun _ =>
       TextArray (buildRichText (Some (join [LINE_FEED] (getAuthors item)))) |};
  {| name := "DOI"; type := "url";
     buildRequest := fun _ => UrlValue (getDOI item) |};
  {| name := "Editors"; type := "rich_text";
     buildRequest := fun _ =>
       TextArray (buildRichText (Some (join [LINE_FEED] (getEditors item)))) |};
  {| name := "File Path"; type := "rich_text";
     buildRequest := fun _ => TextArray (buildRichText (getFilePath item)) |};
  {| name := "Full Citation"; type := "rich_text";
     buildRequest := fun _ =>
       TextArray
         (buildRichText (or_else (getFullCitation item) (getTitle item))) |};
  {| name := "In-Text Citation"; type := "rich_text";
     buildRequest := fun _ =>
       TextArray
         (buildRichText (or_else (getInTextCitation item) (getTitle item))) |};
  {| name := "Item Type"; type := "select";
     buildRequest := fun _ => SelectValue (getItemType item) |};
  {| name := "Tags"; type := "multi_select";
     buildRequest := fun _ =>
       MultiSelectValue (sanitizeSelectOption <$> getTags item) |};
  {| name := "Title"; type := "rich_text";
     buildRequest := fun _ => TextArray (buildRichText (getTitle item)) |};
  {| name := "URL"; type := "url";
     buildRequest := fun _ => UrlValue (getURL item) |};
  {| name := "Year"; type := "number";
     buildRequest := fun _ => NumberValue (getYear item) |};
  {| name := "Zotero URI"; type := "url";
     buildRequest := fun _ => UrlValue (getZoteroURI item) |};
  {| name := "Zotero URI"; type := "url";
     buildRequest := fun _ => UrlValue (getZoteroURI item) |}
].

Definition databaseHasProperty (databaseProperties : DatabaseProperties)
    (d : Definition_) : bool :=
  bool_decide (databaseProperties !! name d = Some (type d)).

Definition titleProperty (item : NoteroItem) : DatabasePageProperty :=
  {| ptype := None; pkey := "title";
     prequest :=
       TextArray
         (buildRichText (or_else (getInTextCitation item) (getTitle item))) |}.

(** The schema a call made in store [s] works with: the stored one, or
    the answer to the retrieval when none is stored. *)
Definition schema_in (s : Store) (schema : DatabaseProperties) : Prop :=
  _databaseProperties (this s) = Some schema \/
  (_databaseProperties (this s) = None /\
   databases_retrieve host (trace s) (databaseID (this s)) = Ok schema).

(** The entry the assembly loop writes for a definition. *)
Definition entry (d : Definition_) : DatabasePageProperty :=
  {| ptype := Some (type d); pkey := type d; prequest := buildRequest d tt |}.

(** The body of the assembly loop: [itemProperties[name] = ...]. *)
Definition assign (itemProperties : DatabasePageProperties) (d : Definition_)
  : DatabasePageProperties :=
  <[name d := entry d]> itemProperties.

(** [buildItemProperties] once the schema is there. *)
Definition assemble (databaseProperties : DatabaseProperties)
    (item : NoteroItem) : DatabasePageProperties :=
  let itemProperties : DatabasePageProperties :=
    {[ "title" := titleProperty item ]} in
  let validPropertyDefinitions :=
    List.filter (databaseHasProperty databaseProperties)
      (propertyDefinitions item) in
  foldl assign itemProperties validPropertyDefinitions.

Definition buildItemProperties (item : NoteroItem)
  : M DatabasePageProperties :=
  let* databaseProperties := getDatabaseProperties in
  ret (assemble databaseProperties item).

(** Modelled from the spec's words, for comparison with [titleProperty]:
    "a title-like field always falls back to a secondary synthesized
    citation string when the primary field is empty, and finally to the raw
    title if that is also empty". *)
Definition title_chain (primary secondary raw : option jsstring)
  : option jsstring :=
  or_else primary (or_else secondary raw).

(** The empty representation of each kind of request. *)
Definition empty_representation (r : PropertyRequest) : bool :=
  match r with
  | TextArray [] | UrlValue None | SelectValue [] | MultiSelectValue []
  | NumberValue None => true
  | _ => false
  end.

(** An item all of whose values are empty or absent. *)
Definition blank (item : NoteroItem) : Prop :=
  getAbstract item = None /\ getAuthors item = [] /\ getDOI item = None /\
  getEditors item = [] /\ getFilePath item = None /\
  getFullCitation item = None /\ getInTextCitation item = None /\
  getItemType item = [] /\ getTags item = [] /\ getTitle item = None /\
  getURL item = None /\ getYear item = None /\ getZoteroURI item = None.

(** [n] calls of [getDatabaseProperties], one after the other. *)
Fixpoint getDatabaseProperties_times (n : nat) : M (list DatabaseProperties) :=
  match n with
  | O => ret []
  | S n' =>
      let* props := getDatabaseProperties in
      let* rest := getDatabaseProperties_times n' in
      ret (props :: rest)
  end.

(** Truthiness of the stored page identifier in [if (pageID)]. *)
Definition has_pageID (pageID : option string) : bool :=
  match pageID with
  | Some pid => negb (String.eqb pid "")
  | None => false
  end.

(** The test of the [catch] block, negated: the error is the remote
    service's "object not found". *)
Definition isObjectNotFound (error : JSError) : bool :=
  isAPIResponseError error
  && bool_decide (code error = Some ObjectNotFound).

Definition pages_create_call (properties : DatabasePageProperties)
  : M PageResponse :=
  fun s =>
    request (PagesCreate (databaseID (this s)) properties)
      (fun t => pages_create host t (databaseID (this s)) properties) s.

Definition pages_update_call (pid : string)
    (properties : DatabasePageProperties) : M PageResponse :=
  request (PagesUpdate pid properties)
    (fun t => pages_update host t pid properties).

Definition saveItemToDatabase (item : NoteroItem) : M PageResponse :=
  let pageID := getNotionPageID item in
  let* properties := buildItemProperties item in
  if has_pageID pageID then
    try_catch
      (pages_update_call (default "" pageID) properties)
      (fun error =>
         if negb (isAPIResponseError error)
            || negb (bool_decide (code error = Some ObjectNotFound))
         then throw error
         else pages_create_call properties)
  else pages_create_call properties.

End WithHost.

End NotionMethods.

(** ** The Notero class *)

Module Notero.

Import Notion NotionMethods.
Local Open Scope notion_scope.

Definition SYNC_DEBOUNCE_MS : Z := 2000.

Record QueuedSync := {
  itemIDs : list Z;                      (* a [Set], in insertion order *)
  timeoutID : option positive;           (* a handle is never falsy *)
}.

(** The two fields of the instance, and the part of the JavaScript runtime
    the class interacts with: the clock, the table of pending timeouts, the
    [saveItemsToNotion] promises that have not settled yet, the activations
    of [performSync] waiting for a nested one, and what has been observed
    from outside so far. *)
Record State := {
  queuedSync : option QueuedSync;
  syncInProgress : bool;
  clock : Z;
  timers : list (positive * Z);          (* handle, time it is due *)
  nextTimeoutID : positive;
  inflight : list (list Z);              (* most recent first *)
  suspended : nat;
  batches : list (list Z);               (* every batch handed over, oldest first *)
  effects : Trace;
}.

Definition initial : State :=
  {| queuedSync := None; syncInProgress := false; clock := 0; timers := [];
     nextTimeoutID := 1%positive; inflight := []; suspended := 0%nat;
     batches := []; effects := [] |}.

Definition set_queuedSync (q : option QueuedSync) (st : State) : State :=
  {| queuedSync := q; syncInProgress := syncInProgress st; clock := clock st;
     timers := timers st; nextTimeoutID := nextTimeoutID st;
     inflight := inflight st; suspended := suspended st;
     batches := batches st; effects := effects st |}.

Definition set_syncInProgress (b : bool) (st : State) : State :=
  {| queuedSync := queuedSync st; syncInProgress := b; clock := clock st;
     timers := timers st; nextTimeoutID := nextTimeoutID st;
     inflight := inflight st; suspended := suspended st;
     batches := batches st; effects := effects st |}.

Definition set_clock (t : Z) (st : State) : State :=
  {| queuedSync := queuedSync st; syncInProgress := syncInProgress st;
     clock := t; timers := timers st; nextTimeoutID := nextTimeoutID st;
     inflight := inflight st; suspended := suspended st;
     batches := batches st; effects := effects st |}.

Definition set_timers (ts : list (positive * Z)) (st : State) : State :=
  {| queuedSync := queuedSync st; syncInProgress := syncInProgress st;
     clock := clock st; timers := ts; nextTimeoutID := nextTimeoutID st;
     inflight := inflight st; suspended := suspended st;
     batches := batches st; effects := effects st |}.

Definition set_suspended (n : nat) (st : State) : State :=
  {| queuedSync := queuedSync st; syncInProgress := syncInProgress st;
     clock := clock st; timers := timers st;
     nextTimeoutID := nextTimeoutID st; inflight := inflight st;
     suspended := n; batches := batches st; effects := effects st |}.

(** [setTimeout(callback, delay)]: a fresh handle, due [delay] from now. *)
Definition setTimeout (delay : Z) (st : State) : positive * State :=
  (nextTimeoutID st,
   {| queuedSync := queuedSync st; syncInProgress := syncInProgress st;
      clock := clock st;
      timers := timers st ++ [(nextTimeoutID st, clock st + delay)];
      nextTimeoutID := Pos.succ (nextTimeoutID st);
      inflight := inflight st; suspended := suspended st;
      batches := batches st; effects := effects st |}).

Definition clearTimeout (tid : positive) (st : State) : State :=
  set_timers (List.filter (fun t => negb (Pos.eqb (fst t) tid)) (timers st)) st.

(** [enqueueItemsToSync(items)]; the items are given by their [id]. *)
Definition enqueueItemsToSync (items : list Z) (st : State) : State :=
  match items with
  | [] => st
  | _ :: _ =>
      let st1 :=
        match queuedSync st with
        | Some {| timeoutID := Some tid |} => clearTimeout tid st
        | _ => st
        end in
      let itemIDs :=
        Set_of (from_option Notero.itemIDs [] (queuedSync st) ++ items) in
      let '(timeoutID, st2) := setTimeout SYNC_DEBOUNCE_MS st1 in
      set_queuedSync
        (Some {| itemIDs := itemIDs; timeoutID := Some timeoutID |}) st2
  end.

(** [performSync] up to [await this.saveItemsToNotion(itemIDs)]. *)
Definition performSync (st : State) : State :=
  match queuedSync st with
  | None => st
  | Some q =>
      {| queuedSync := None; syncInProgress := true; clock := clock st;
         timers := timers st; nextTimeoutID := nextTimeoutID st;
         inflight := itemIDs q :: inflight st; suspended := suspended st;
         batches := batches st ++ [itemIDs q]; effects := effects st |}
  end.

(** The callback given to [setTimeout]. *)
Definition timeoutCallback (st : State) : State :=
  match queuedSync st with
  | None => st
  | Some q =>
      let st1 :=
        set_queuedSync (Some {| itemIDs := itemIDs q; timeoutID := None |}) st in
      if negb (syncInProgress st1) then performSync st1 else st1
  end.

(** [performSync] from the settling of [saveItemsToNotion] on.  The nested
    call leaves this activation suspended; once no nested call is made, this
    activation and the ones waiting for it each assign
    [syncInProgress = false], one after the other as promise reactions,
    before any timer or notification is served. *)
Definition performSync_settled (st : State) : State :=
  match queuedSync st with
  | Some {| timeoutID := None |} =>
      performSync (set_suspended (S (suspended st)) st)
  | _ => set_suspended 0 (set_syncInProgress false st)
  end.

Definition getLocalizedString (host : Host) (pref : string) : string :=
  GetStringFromName host ("notero.preferences." +:+ pref).

(** [new Error(text)]: [String(error)] is the text after ["Error: "]; the
    frames of [error.stack] are not modelled. *)
Definition Error (text : string) : JSError :=
  {| isAPIResponseError := false; code := None;
     message := "Error: " +:+ text; stack := Some "" |}.

Definition nonempty (v : option string) : bool :=
  match v with
  | Some text => negb (String.eqb text "")
  | None => false
  end.

Definition getNotion (host : Host) (prefs : Prefs) : Result Instance :=
  let authToken := notionToken prefs in
  let databaseID := notionDatabaseID prefs in
  if negb (nonempty authToken) then
    Throw (Error ("Missing " +:+ getLocalizedString host "notionToken"))
  else if negb (nonempty databaseID) then
    Throw (Error ("Missing " +:+ getLocalizedString host "notionDatabaseID"))
  else Ok (Notion.new (default "" authToken) (default "" databaseID)).

Definition inflight_length (st : State) : Prop :=
  length (inflight st) = if syncInProgress st then 1%nat else 0%nat.

(** What holds of the engine between any two events: a timeout is pending
    only as the handle of the queued change set, and it is due within the
    debounce delay; the flag is set while a [saveItemsToNotion] has not
    settled, and then there is one; a change set has no duplicates. *)
Definition timer_of (st : State) : Prop :=
  match queuedSync st with
  | Some {| timeoutID := Some tid |} =>
      exists due, timers st = [(tid, due)]
        /\ clock st < due <= clock st + SYNC_DEBOUNCE_MS
  | _ => timers st = []
  end.

Definition wf (st : State) : Prop :=
  timer_of st /\
  inflight_length st /\
  (forall q, queuedSync st = Some q -> NoDup (itemIDs q) /\ itemIDs q <> []).

Section WithHost.

Variable host : Host.
Variable prefs : Prefs.

Definition saveItemToNotion (item : NoteroItem) : M unit :=
  let* response := saveItemToDatabase host item in
  call (SaveNotionTag (id item)) (fun t => saveNotionTag host t item);;
  match page_url response with
  | Some url =>
      call (SaveNotionLinkAttachment (id item) url)
        (fun t => saveNotionLinkAttachment host t item url)
  | None => ret tt
  end.

(** The [for] loop of [saveItemsToNotion]; [step] counts the items done. *)
Fixpoint saveItems_loop (total step : nat) (items : list NoteroItem)
  : M unit :=
  match items with
  | [] => ret tt
  | item :: rest =>
      emit (SetText (S step) total);;
      saveItemToNotion item;;
      emit (SetProgress (S step) total);;
      saveItems_loop total (S step) rest
  end.

(** The [catch] block of [saveItemsToNotion]. *)
Definition report (error : JSError) (t : Trace) : Trace :=
  t ++ [Log (message error) "error"]
    ++ match stack error with
       | Some frames => [Log frames "error"]
       | None => []
       end
    ++ [SetError; AddDescription (message error)].

(** [Zotero.Items.get(ids)]: the items that exist, in the order asked. *)
Definition Items_getAll (ids : list Z) : list NoteroItem :=
  omap (Items_get host) ids.

Definition saveItemsToNotion (itemIDs : list Z) (t : Trace) : Trace :=
  let items := Items_getAll itemIDs in
  match items with
  | [] => t
  | _ :: _ =>
      let t1 :=
        t ++ [ChangeHeadline "Saving items to Notion..."; ShowProgressWindow;
              NewItemProgress] in
      match getNotion host prefs with
      | Throw error => report error t1
      | Ok notion =>
          match
            (saveItems_loop (length items) 0 items;;
             emit SetIcon;;
             emit StartCloseTimer) {| this := notion; trace := t1 |}
          with
          | (Ok _, s) => trace s
          | (Throw error, s) => report error (trace s)
          end
      end
  end.

(** An identifier of a notification, by the numbers between its dashes:
    ["12-34"] is [[12; 34]], ["56"] is [[56]]. *)
Definition onAddItemsToCollection (ids : list (list Z)) (st : State)
  : State :=
  let collectionIDs := loadSyncEnabledCollectionIDs host in
  match collectionIDs with
  | [] => st
  | _ :: _ =>
      let items :=
        omap
          (fun collectionItem : list Z =>
             match collectionItem !! 0%nat, collectionItem !! 1%nat with
             | Some collectionID, Some itemID =>
                 match Items_get host itemID with
                 | Some item =>
                     if isRegularItem item
                        && bool_decide (collectionID ∈ collectionIDs)
                     then Some item else None
                 | None => None
                 end
             | _, _ => None
             end) ids in
      enqueueItemsToSync (id <$> items) st
  end.

Definition onModifyItems (ids : list (list Z)) (st : State) : State :=
  let collectionIDs := loadSyncEnabledCollectionIDs host in
  match collectionIDs with
  | [] => st
  | _ :: _ =>
      let numbers :=
        omap (fun i : list Z => match i with [n] => Some n | _ => None end)
          ids in
      let items :=
        List.filter
          (fun item =>
             negb (deleted item) && isRegularItem item
             && existsb
                  (fun collectionID =>
                     bool_decide (collectionID ∈ collectionIDs))
                  (getCollections item))
          (Items_getAll numbers) in
      enqueueItemsToSync (id <$> items) st
  end.

Inductive Handler := AddItemsToCollection | ModifyItems.

(** The two tests of [notifierCallback.notify]. *)
Definition isAddToCollection (event type : string) : bool :=
  negb (syncOnModifyItems prefs) && String.eqb event "add"
  && String.eqb type "collection-item".

Definition isModifyItem (event type : string) : bool :=
  syncOnModifyItems prefs && String.eqb event "modify"
  && String.eqb type "item".

(** The handler [notify] returns through, in the order of the source. *)
Definition notify_handler (event type : string) : option Handler :=
  if isAddToCollection event type then Some AddItemsToCollection
  else if isModifyItem event type then Some ModifyItems
  else None.

Definition notify (event type : string) (ids : list (list Z)) (st : State)
  : State :=
  match notify_handler event type with
  | Some AddItemsToCollection => onAddItemsToCollection ids st
  | Some ModifyItems => onModifyItems ids st
  | None => st
  end.

(** What can happen to the engine. *)
Inductive Event :=
| Notify (event type : string) (ids : list (list Z))
| Enqueue (items : list Z)               (* [enqueueItemsToSync] is called *)
| Elapse (dt : Z)                        (* time passes, due timers fire *)
| SaveSettled.                           (* [saveItemsToNotion] settles *)

(** The runtime serves the timer [t]: it leaves the table, then runs. *)
Definition fire (st : State) (t : positive * Z) : State :=
  timeoutCallback (clearTimeout (fst t) (set_clock (Z.max (clock st) (snd t)) st)).

Definition elapse (dt : Z) (st : State) : State :=
  if 0 <=? dt then
    let target := clock st + dt in
    let due := List.filter (fun t => snd t <=? target) (timers st) in
    set_clock target (foldl fire st due)
  else st.

Definition saveSettled (st : State) : State :=
  match inflight st with
  | [] => st
  | batch :: rest =>
      performSync_settled
        {| queuedSync := queuedSync st; syncInProgress := syncInProgress st;
           clock := clock st; timers := timers st;
           nextTimeoutID := nextTimeoutID st; inflight := rest;
           suspended := suspended st; batches := batches st;
           effects := saveItemsToNotion batch (effects st) |}
  end.

Definition step (st : State) (ev : Event) : State :=
  match ev with
  | Notify event type ids => notify event type ids st
  | Enqueue items => enqueueItemsToSync items st
  | Elapse dt => elapse dt st
  | SaveSettled => saveSettled st
  end.

Definition run (evs : list Event) (st : State) : State := foldl step st evs.

End WithHost.

End Notero.

(** ** Concrete collaborators and items *)

Module Scenario.

Import Notion NotionMethods Notero.

(** A database with a [Title] and a [Tags] property and no [DOI]. *)
Definition schema : DatabaseProperties :=
  <["Title" := "rich_text"]> (<["Tags" := "multi_select"]> ∅).

Definition item_of (i : Z) (pageID : option string) (title : string)
  : NoteroItem :=
  {| id := i; deleted := false; isRegularItem := true;
     getCollections := [10]; getNotionPageID := pageID;
     getAbstract := None; getAuthors := []; getDOI := Some (str "10.1000/182");
     getEditors := []; getFilePath := None; getFullCitation := None;
     getInTextCitation := None; getItemType := str "book";
     getTags := [str "x,y"]; getTitle := Some (str title); getURL := None;
     getYear := None; getZoteroURI := None |}.

Definition item1 : NoteroItem := item_of 1 None "A, B".
Definition item2 : NoteroItem := item_of 2 (Some "R1") "C".
Definition item3 : NoteroItem := item_of 3 None "D".

(** An item with a raw title and a full citation but no in-text citation. *)
Definition cited_in_full : NoteroItem :=
  {| id := 4; deleted := false; isRegularItem := true; getCollections := [10];
     getNotionPageID := None; getAbstract := None; getAuthors := [];
     getDOI := None; getEditors := []; getFilePath := None;
     getFullCitation := Some (str "Doe, J. (2020). T.");
     getInTextCitation := None; getItemType := str "book"; getTags := [];
     getTitle := Some (str "T"); getURL := None; getYear := None;
     getZoteroURI := None |}.

(** An item with a raw title and an in-text citation. *)
Definition cited_in_text : NoteroItem :=
  {| id := 5; deleted := false; isRegularItem := true; getCollections := [10];
     getNotionPageID := None; getAbstract := None; getAuthors := [];
     getDOI := None; getEditors := []; getFilePath := None;
     getFullCitation := None;
     getInTextCitation := Some (str "(Doe, 2020)");
     getItemType := str "book"; getTags := []; getTitle := Some (str "T");
     getURL := None; getYear := None; getZoteroURI := None |}.

Definition not_found : JSError :=
  {| isAPIResponseError := true; code := Some ObjectNotFound;
     message := "APIResponseError: Could not find page"; stack := None |}.

Definition transient : JSError :=
  {| isAPIResponseError := false; code := None;
     message := "RequestTimeoutError: Request to Notion API has timed out";
     stack := None |}.

(** What the client library reports for a failed request: a warning with
    the code and the message of the error. *)
Definition quoted (text : string) : string :=
  String (Ascii.ascii_of_nat 34) text
  +:+ String (Ascii.ascii_of_nat 34) EmptyString.

Definition request_fail (e : JSError) : list (LogLevel * string * string) :=
  [(WARN, "request fail",
    "{" +:+ quoted "code" +:+ ":" +:+ quoted (default "unknown" (code e))
    +:+ "," +:+ quoted "message" +:+ ":" +:+ quoted (message e) +:+ "}")].

Definition items (i : Z) : option NoteroItem :=
  if i =? 1 then Some item1
  else if i =? 2 then Some item2
  else if i =? 3 then Some item3
  else None.

(** The stored page is gone: every update answers not-found, every create
    succeeds. *)
Definition host : Host :=
  {| log_on_failure := request_fail;
     databases_retrieve := fun _ _ => Ok schema;
     pages_update := fun _ _ _ => Throw not_found;
     pages_create := fun _ _ _ =>
       Ok {| page_id := "R2"; page_url := Some "https://www.notion.so/R2" |};
     saveNotionTag := fun _ _ => Ok tt;
     saveNotionLinkAttachment := fun _ _ _ => Ok tt;
     Items_get := items;
     loadSyncEnabledCollectionIDs := [10];
     GetStringFromName := fun text => text |}.

(** The service times out on every update. *)
Definition flaky : Host :=
  {| log_on_failure := request_fail;
     databases_retrieve := fun _ _ => Ok schema;
     pages_update := fun _ _ _ => Throw transient;
     pages_create := fun _ _ _ =>
       Ok {| page_id := "R2"; page_url := Some "https://www.notion.so/R2" |};
     saveNotionTag := fun _ _ => Ok tt;
     saveNotionLinkAttachment := fun _ _ _ => Ok tt;
     Items_get := items;
     loadSyncEnabledCollectionIDs := [10];
     GetStringFromName := fun text => text |}.

Definition prefs : Prefs :=
  {| notionToken := Some "secret"; notionDatabaseID := Some "db";
     syncOnModifyItems := false |}.

Definition modifying : Prefs :=
  {| notionToken := Some "secret"; notionDatabaseID := Some "db";
     syncOnModifyItems := true |}.

Definition fresh : Store :=
  {| this := Notion.new "secret" "db"; trace := [] |}.

End Scenario.

(** ** The static URL helpers of the Notion wrapper *)

Module NotionURLs.

Definition URL_PROTOCOL : jsstring := str "notion:".

Definition HTTPS : jsstring := str "https:".

(** [text] begins with [prefix]. *)
Definition starts_with (prefix text : jsstring) : bool :=
  bool_decide (take (length prefix) text = prefix).

(** [url.replace(/^https:/, this.URL_PROTOCOL)]: the pattern is anchored at
    the start, so at most the leading [https:] is replaced. *)
Definition convertWebURLToLocal (url : jsstring) : jsstring :=
  if starts_with HTTPS url then URL_PROTOCOL ++ drop (length HTTPS) url
  else url.

(** What [.] does not match: line feed, carriage return, U+2028, U+2029. *)
Definition is_line_terminator (u : N) : bool :=
  N.eqb u 10 || N.eqb u 13 || N.eqb u 8232 || N.eqb u 8233.

(** The class [[0-9a-f]]. *)
Definition is_hex (u : N) : bool :=
  (N.leb 48 u && N.leb u 57) || (N.leb 97 u && N.leb u 102).

(** [url.match(PAGE_URL_REGEX)] with
    [PAGE_URL_REGEX = ^notion:.+([0-9a-f]{32})$], then [matches[1]].  Both
    ends are anchored, so the group is the last 32 code units and [.+] is
    everything between the protocol and the group: at least one code unit,
    none of them a line terminator. *)
Definition getPageIDFromURL (url : jsstring) : option jsstring :=
  let rest := drop (length URL_PROTOCOL) url in
  let middle := take (length rest - 32) rest in
  let group := drop (length rest - 32) rest in
  if starts_with URL_PROTOCOL url
     && negb (bool_decide (middle = []))
     && forallb (fun u => negb (is_line_terminator u)) middle
     && forallb is_hex group
  then Some group
  else None.

End NotionURLs.

(** ** The patch helper *)

Module MonkeyPatch.

Definition monkey_patch_marker : string := "NoteroMonkeyPatched".

Section WithCallable.

(** What calling a method does is left open. *)
Variable F : Type.

(** A method of the patched object: a function with boolean properties. *)
Record Method := {
  callable : F;
  properties : gmap string bool;
}.

(** [patch(object, method, patcher)]; reading a property of a missing
    method throws, which is [None]. *)
Definition patch (object : gmap string Method) (method : string)
    (patcher : Method -> Method) : option (gmap string Method) :=
  match object !! method with
  | None => None
  | Some current =>
      if bool_decide (properties current !! monkey_patch_marker = Some true)
      then Some object
      else
        let patched := patcher current in
        Some (<[method :=
                  {| callable := callable patched;
                     properties :=
                       <[monkey_patch_marker := true]> (properties patched) |}
              ]> object)
  end.

End WithCallable.

Arguments callable {F} _.
Arguments properties {F} _.
Arguments Build_Method {F} _ _.
Arguments patch {F} _ _ _.

End MonkeyPatch.

(** ** The limits of the remote service on a payload *)

Module Limits.

Import Notion.

(** A rich text has at most one text object, with 1 to 2000 code units; no
    name of a multi-select option holds a comma. *)
Definition within_limits (r : PropertyRequest) : Prop :=
  match r with
  | TextArray texts =>
      (length texts <= 1)%nat /\
      Forall (fun text => (0 < length text <= TEXT_CONTENT_MAX_LENGTH)%nat)
        texts
  | MultiSelectValue names => Forall (fun name => COMMA ∉ name) names
  | _ => True
  end.

End Limits.

(** ** What the engine was asked to synchronise *)

Module Engine.

Import Notion NotionMethods Notero.

Definition is_write (e : Effect) : bool :=
  match e with
  | SaveNotionTag _ | SaveNotionLinkAttachment _ _ => true
  | _ => false
  end.

Definition is_report (e : Effect) : bool :=
  match e with
  | Log _ _ | SetError | AddDescription _ => true
  | _ => false
  end.

(** The progress window is told of a failure. *)
Definition is_failure (e : Effect) : bool :=
  match e with SetError | AddDescription _ => true | _ => false end.

Definition is_tag (e : Effect) : bool :=
  match e with SaveNotionTag _ => true | _ => false end.

(** The effects of a kind after [before], in order. *)
Definition since (kind : Effect -> bool) (before after : Trace) : Trace :=
  List.filter kind (drop (length before) after).

(** [m] leaves the instance as it is. *)
Definition keeps_this {A} (m : M A) : Prop :=
  forall s r s', m s = (r, s') -> this s' = this s.

(** The result is a value, not a thrown error. *)
Definition is_ok {A} (r : Result A) : bool :=
  match r with Ok _ => true | Throw _ => false end.

(** An update call is for the page of [item]. *)
Definition for_page_of (item : NoteroItem) (e : Effect) : Prop :=
  match e with
  | PagesUpdate pid _ => getNotionPageID item = Some pid
  | _ => True
  end.

(** What the upsert of one item may hold: at most one update call, for the
    page of the item, at most one create call, and no start of another
    attempt. *)
Definition one_upsert (item : NoteroItem) (body : Trace) : Prop :=
  (count is_update body <= 1)%nat /\
  (count is_create body <= 1)%nat /\
  count is_setText body = 0%nat /\
  Forall (for_page_of item) body.

(** What the upsert of [item] adds between [s] and [s'], and what it does to
    the cache: no retrieval when the schema is stored, one when it is not,
    after which a successful upsert leaves a schema stored. *)
Definition upsert_body (item : NoteroItem) (s s' : Store) (ok : bool)
    (body : Trace) : Prop :=
  trace s' = trace s ++ body /\
  one_upsert item body /\
  match _databaseProperties (this s) with
  | Some props =>
      count is_retrieve body = 0%nat
      /\ _databaseProperties (this s') = Some props
  | None =>
      count is_retrieve body = 1%nat
      /\ (ok = true -> is_Some (_databaseProperties (this s')))
  end.

(** The stretch of the trace of one attempt: the [setText] that announces
    the item at a position, and what follows up to the next attempt. *)
Definition stretch (total : nat) (attempt : nat * Trace) : Trace :=
  SetText (fst attempt) total :: snd attempt.

(** The identifiers queued at the moment. *)
Definition queued (st : State) : list Z :=
  from_option itemIDs [] (queuedSync st).

(** The identifiers queued or handed over so far. *)
Definition known (st : State) : list Z := queued st ++ concat (batches st).

Section WithHost.

Variable host : Host.
Variable prefs : Prefs.

(** The items [onAddItemsToCollection] passes on, by their [id]. *)
Definition added_items (ids : list (list Z)) : list Z :=
  id <$>
  omap
    (fun collectionItem : list Z =>
       match collectionItem !! 0%nat, collectionItem !! 1%nat with
       | Some collectionID, Some itemID =>
           match Items_get host itemID with
           | Some item =>
               if isRegularItem item
                  && bool_decide
                       (collectionID ∈ loadSyncEnabledCollectionIDs host)
               then Some item else None
           | None => None
           end
       | _, _ => None
       end) ids.

(** The items [onModifyItems] passes on, by their [id]. *)
Definition modified_items (ids : list (list Z)) : list Z :=
  id <$>
  List.filter
    (fun item =>
       negb (deleted item) && isRegularItem item
       && existsb
            (fun collectionID =>
               bool_decide (collectionID ∈ loadSyncEnabledCollectionIDs host))
            (getCollections item))
    (Items_getAll host
       (omap (fun i : list Z => match i with [n] => Some n | _ => None end)
          ids)).

(** The identifiers an event gives to [enqueueItemsToSync]. *)
Definition submitted (ev : Event) : list Z :=
  match ev with
  | Enqueue items => items
  | Notify event type ids =>
      match notify_handler prefs event type with
      | Some AddItemsToCollection => added_items ids
      | Some ModifyItems => modified_items ids
      | None => []
      end
  | _ => []
  end.

(** The events that follow the call which opens a debounce window stay
    within it: [elapsed] is the time since the last call that carried an
    item, and it stays below the delay. *)
Fixpoint within_window (elapsed : Z) (evs : list Event) : bool :=
  match evs with
  | [] => true
  | Elapse dt :: rest =>
      (0 <=? dt) && (elapsed + dt <? SYNC_DEBOUNCE_MS)
      && within_window (elapsed + dt) rest
  | ev :: rest =>
      within_window
        (match submitted ev with [] => elapsed | _ :: _ => 0 end) rest
  end.

(** The time since the last call that carried an item, after [evs]. *)
Fixpoint elapsed_after (elapsed : Z) (evs : list Event) : Z :=
  match evs with
  | [] => elapsed
  | Elapse dt :: rest => elapsed_after (elapsed + dt) rest
  | ev :: rest =>
      elapsed_after
        (match submitted ev with [] => elapsed | _ :: _ => 0 end) rest
  end.

End WithHost.

(** A change set without a timer exists only while a pass runs, and every
    batch handed over has at least one identifier and no duplicates. *)
Definition settled_queue (st : State) : Prop :=
  syncInProgress st = false ->
  forall q, queuedSync st = Some q -> timeoutID q <> None.

Definition stable (st : State) : Prop :=
  wf st /\ settled_queue st /\
  Forall (fun batch => NoDup batch /\ batch <> []) (batches st).

End Engine.

(** ** Further concrete collaborators *)

Module Cases.

Import Notion NotionMethods Notero Scenario.

(** The service cannot be reached: the schema retrieval times out. *)
Definition offline : Host :=
  {| log_on_failure := request_fail;
     databases_retrieve := fun _ _ => Throw transient;
     pages_update := fun _ _ _ => Throw transient;
     pages_create := fun _ _ _ => Throw transient;
     saveNotionTag := fun _ _ => Ok tt;
     saveNotionLinkAttachment := fun _ _ _ => Ok tt;
     Items_get := items;
     loadSyncEnabledCollectionIDs := [10];
     GetStringFromName := fun text => text |}.

(** No access token has been entered. *)
Definition unconfigured : Prefs :=
  {| notionToken := None; notionDatabaseID := Some "db";
     syncOnModifyItems := false |}.

Definition page_id : jsstring := str "0123456789abcdef0123456789abcdef".

Definition web_url : jsstring :=
  str "https://www.notion.so/A-B-0123456789abcdef0123456789abcdef".

Definition increment : MonkeyPatch.Method nat -> MonkeyPatch.Method nat :=
  fun m =>
    {| MonkeyPatch.callable := S (MonkeyPatch.callable m);
       MonkeyPatch.properties := ∅ |}.

Definition notifier : gmap string (MonkeyPatch.Method nat) :=
  {[ "trigger" := {| MonkeyPatch.callable := 0%nat;
                     MonkeyPatch.properties := ∅ |} ]}.

End Cases.

(** Case analysis on a member of the list of field definitions. *)
Ltac each_definition H :=
  unfold NotionMethods.propertyDefinitions in H;
  repeat (apply elem_of_cons in H as [-> | H]);
  [.. | by apply elem_of_nil in H].

(** ** Properties of the text helpers *)

Section TextHelpers.

Import Notion.

Lemma truncate_length (text : jsstring) :
  length (truncateTextToMaxLength text)
  = Nat.min TEXT_CONTENT_MAX_LENGTH (length text).
Proof. unfold truncateTextToMaxLength, substr0. apply length_take. Qed.

Lemma truncate_short (text : jsstring) :
  (length text <= TEXT_CONTENT_MAX_LENGTH)%nat ->
  truncateTextToMaxLength text = text.
Proof. intros H. unfold truncateTextToMaxLength, substr0. by apply take_ge. Qed.

Lemma truncate_nonempty (text : jsstring) :
  text <> [] -> truncateTextToMaxLength text <> [].
Proof. destruct text; [done | discriminate]. Qed.

Lemma sanitize_unit (u : N) :
  (if N.eqb u COMMA then SEMICOLON else u) <> COMMA.
Proof.
  destruct (N.eqb_spec u COMMA) as [-> | Hne]; [discriminate | exact Hne].
Qed.

(** C7: a text longer than 2000 code units is cut to exactly 2000, a text of
    at most 2000 code units is returned unchanged, and truncating twice is
    the same as truncating once. *)
Theorem truncateTextToMaxLength_spec (text : jsstring) :
  ((2000 < length text)%nat ->
     length (truncateTextToMaxLength text) = 2000%nat) /\
  ((length text <= 2000)%nat -> truncateTextToMaxLength text = text) /\
  truncateTextToMaxLength (truncateTextToMaxLength text)
  = truncateTextToMaxLength text.
Proof.
  split; [| split].
  - intros Hlong. rewrite truncate_length. unfold TEXT_CONTENT_MAX_LENGTH. lia.
  - apply truncate_short.
  - apply truncate_short. rewrite truncate_length. lia.
Qed.

Lemma truncateTextToMaxLength_spec_witness :
  length (truncateTextToMaxLength (replicate 2003 65%N)) = 2000%nat /\
  truncateTextToMaxLength (str "A, B") = str "A, B".
Proof.
  split.
  - apply (proj1 (truncateTextToMaxLength_spec (replicate 2003 65%N))).
    rewrite length_replicate. lia.
  - apply (proj1 (proj2 (truncateTextToMaxLength_spec (str "A, B")))).
    simpl. lia.
Defined.

(** C8: every comma of a tag label becomes a semicolon (the other code units
    stay in place), the result holds no comma, and sanitising twice is the
    same as sanitising once. *)
Theorem sanitizeSelectOption_spec (text : jsstring) :
  length (sanitizeSelectOption text) = length text /\
  (forall (i : nat) (u : N), text !! i = Some u ->
     sanitizeSelectOption text !! i
     = Some (if N.eqb u COMMA then SEMICOLON else u)) /\
  (COMMA ∉ sanitizeSelectOption text) /\
  sanitizeSelectOption (sanitizeSelectOption text) = sanitizeSelectOption text.
Proof.
  unfold sanitizeSelectOption, replace_all.
  split; [| split; [| split]].
  - apply length_fmap.
  - intros i u Hi. by rewrite list_lookup_fmap, Hi.
  - intros Hin. apply list_elem_of_fmap in Hin.
    destruct Hin as (u & Hu & _). by apply (sanitize_unit u).
  - rewrite <- list_fmap_compose. apply list_fmap_ext. intros _ u _. simpl.
    destruct (N.eqb_spec u COMMA) as [-> | Hne]; [reflexivity |].
    by apply N.eqb_neq in Hne as ->.
Qed.

Lemma sanitizeSelectOption_spec_witness :
  sanitizeSelectOption (str "x,y") !! 1%nat = Some SEMICOLON.
Proof.
  apply (proj1 (proj2 (sanitizeSelectOption_spec (str "x,y"))) 1%nat COMMA).
  reflexivity.
Defined.

End TextHelpers.

(** ** The schema cache *)

Section SchemaCache.

Import Notion NotionMethods.

Variable host : Host.

Lemma getDatabaseProperties_hit (s : Store) (props : DatabaseProperties) :
  _databaseProperties (this s) = Some props ->
  getDatabaseProperties host s = (Ok props, s).
Proof.
  intros Hc. unfold getDatabaseProperties, getDatabaseProperties_start.
  by rewrite Hc.
Qed.

Lemma getDatabaseProperties_miss (s : Store) :
  _databaseProperties (this s) = None ->
  getDatabaseProperties host s
  = match databases_retrieve host (trace s) (databaseID (this s)) with
    | Ok props =>
        (Ok props,
         {| this := stored (this s) props;
            trace := trace s ++ [DatabasesRetrieve (databaseID (this s))] |})
    | Throw e =>
        (Throw e,
         extend s
           (DatabasesRetrieve (databaseID (this s))
            :: failure_log host (client (this s)) e))
    end.
Proof.
  intros Hc. unfold getDatabaseProperties, getDatabaseProperties_start.
  rewrite Hc.
  destruct (databases_retrieve host (trace s) (databaseID (this s)));
    [reflexivity |].
  cbn. unfold extend. cbn. by rewrite <- app_assoc.
Qed.

Lemma getDatabaseProperties_times_hit (n : nat) (s : Store)
    (props : DatabaseProperties) :
  _databaseProperties (this s) = Some props ->
  getDatabaseProperties_times host n s = (Ok (replicate n props), s).
Proof.
  intros Hc. induction n as [| n IH]; [reflexivity |].
  simpl. unfold bind at 1. rewrite (getDatabaseProperties_hit s props Hc).
  unfold bind at 1. by rewrite IH.
Qed.

Lemma count_app (kind : Effect -> bool) (t1 t2 : Trace) :
  count kind (t1 ++ t2) = (count kind t1 + count kind t2)%nat.
Proof. unfold count. by rewrite List.filter_app, length_app. Qed.

End SchemaCache.

(** ** The property mapper *)

Section PropertyMapper.

Import Notion NotionMethods.

Variable host : Host.

Lemma getDatabaseProperties_schema (s : Store) (schema : DatabaseProperties) :
  schema_in host s schema ->
  exists s', getDatabaseProperties host s = (Ok schema, s')
    /\ _databaseProperties (this s') = Some schema
    /\ databaseID (this s') = databaseID (this s)
    /\ count is_update (trace s') = count is_update (trace s)
    /\ count is_create (trace s') = count is_create (trace s).
Proof.
  intros [Hc | [Hc Hr]].
  - exists s. by rewrite (getDatabaseProperties_hit host s schema Hc).
  - eexists. rewrite (getDatabaseProperties_miss host s Hc), Hr.
    split; [reflexivity |]. cbn [this trace _databaseProperties databaseID].
    rewrite !count_app. cbn. repeat split; lia.
Qed.

Lemma foldl_assign_keep (defs : list Definition_)
    (acc : DatabasePageProperties) (k : string) (p : DatabasePageProperty) :
  acc !! k = Some p ->
  (forall d, d ∈ defs -> name d = k -> entry d = p) ->
  foldl assign acc defs !! k = Some p.
Proof.
  revert acc. induction defs as [| d0 defs IH]; intros acc Hacc Hsame.
  - exact Hacc.
  - simpl. apply IH.
    + unfold assign. destruct (decide (name d0 = k)) as [Heq | Hne].
      * rewrite Heq, lookup_insert_eq. f_equal.
        apply Hsame; [left | exact Heq].
      * by rewrite lookup_insert_ne.
    + intros d Hd. apply Hsame. by right.
Qed.

Lemma foldl_assign_sound (defs : list Definition_)
    (acc : DatabasePageProperties) (k : string) (p : DatabasePageProperty) :
  foldl assign acc defs !! k = Some p ->
  acc !! k = Some p \/ exists d, d ∈ defs /\ name d = k /\ p = entry d.
Proof.
  revert acc. induction defs as [| d0 defs IH]; intros acc Hp.
  - by left.
  - simpl in Hp. apply IH in Hp as [Hp | (d & Hd & Hk & He)].
    + unfold assign in Hp. destruct (decide (name d0 = k)) as [Heq | Hne].
      * rewrite Heq, lookup_insert_eq in Hp. right. exists d0.
        split; [left | split; [exact Heq | congruence]].
      * rewrite lookup_insert_ne in Hp by exact Hne. by left.
    + right. exists d. split; [by right | by split].
Qed.

Lemma foldl_assign_complete (defs : list Definition_)
    (acc : DatabasePageProperties) (d : Definition_) :
  d ∈ defs ->
  (forall d', d' ∈ defs -> name d' = name d -> entry d' = entry d) ->
  foldl assign acc defs !! name d = Some (entry d).
Proof.
  intros Hd Hsame. induction defs as [| dl defs IH] using rev_ind.
  - by apply elem_of_nil in Hd.
  - rewrite foldl_app. simpl. unfold assign.
    destruct (decide (name dl = name d)) as [Heq | Hne].
    + rewrite Heq, lookup_insert_eq. f_equal.
      apply Hsame; [| exact Heq]. apply elem_of_app. right. left.
    + rewrite lookup_insert_ne by exact Hne. apply IH.
      * apply elem_of_app in Hd as [Hd | Hd]; [exact Hd |].
        apply list_elem_of_singleton in Hd. by subst dl.
      * intros d' Hd'. apply Hsame. apply elem_of_app. by left.
Qed.

Lemma valid_definition (schema : DatabaseProperties) (item : NoteroItem)
    (d : Definition_) :
  d ∈ List.filter (databaseHasProperty schema) (propertyDefinitions item)
  <-> d ∈ propertyDefinitions item /\ schema !! name d = Some (type d).
Proof.
  rewrite !list_elem_of_In, filter_In. unfold databaseHasProperty.
  by rewrite bool_decide_eq_true.
Qed.

Lemma definition_not_title (item : NoteroItem) (d : Definition_) :
  d ∈ propertyDefinitions item -> name d <> "title".
Proof. intros Hd. each_definition Hd; discriminate. Qed.

Lemma definition_same_name (item : NoteroItem) (d d' : Definition_) :
  d ∈ propertyDefinitions item -> d' ∈ propertyDefinitions item ->
  name d' = name d -> entry d' = entry d.
Proof.
  intros Hd Hd' Hn. each_definition Hd; each_definition Hd';
    first [discriminate Hn | reflexivity].
Qed.

Lemma definition_type (item : NoteroItem) (d : Definition_) :
  d ∈ propertyDefinitions item ->
  type d ∈ ["rich_text"; "url"; "select"; "multi_select"; "number"].
Proof.
  intros Hd. each_definition Hd; cbn [type];
    repeat first [apply list_elem_of_here | apply list_elem_of_further].
Qed.

Lemma assemble_title (schema : DatabaseProperties) (item : NoteroItem) :
  assemble schema item !! "title" = Some (titleProperty item).
Proof.
  unfold assemble. apply foldl_assign_keep.
  - apply lookup_singleton_eq.
  - intros d Hd Hn. apply valid_definition in Hd as [Hd _].
    by apply definition_not_title in Hd.
Qed.

Lemma assemble_sound (schema : DatabaseProperties) (item : NoteroItem)
    (k : string) (p : DatabasePageProperty) :
  assemble schema item !! k = Some p -> k <> "title" ->
  exists d, d ∈ propertyDefinitions item /\ name d = k
    /\ schema !! k = Some (type d) /\ p = entry d.
Proof.
  unfold assemble. intros Hp Hk.
  apply foldl_assign_sound in Hp as [Hp | (d & Hd & Hn & He)].
  - apply lookup_singleton_Some in Hp as [Hp _]. congruence.
  - apply valid_definition in Hd as [Hd Hs]. exists d. by subst k.
Qed.

Lemma assemble_complete (schema : DatabaseProperties) (item : NoteroItem)
    (d : Definition_) :
  d ∈ propertyDefinitions item -> schema !! name d = Some (type d) ->
  assemble schema item !! name d = Some (entry d).
Proof.
  intros Hd Hs. unfold assemble. apply foldl_assign_complete.
  - by apply valid_definition.
  - intros d' Hd' Hn. apply valid_definition in Hd' as [Hd' _].
    by apply (definition_same_name item).
Qed.

Lemma buildItemProperties_run (item : NoteroItem) (s : Store)
    (schema : DatabaseProperties) :
  schema_in host s schema ->
  exists s', buildItemProperties host item s = (Ok (assemble schema item), s')
    /\ databaseID (this s') = databaseID (this s)
    /\ count is_update (trace s') = count is_update (trace s)
    /\ count is_create (trace s') = count is_create (trace s).
Proof.
  intros Hs. apply getDatabaseProperties_schema in Hs
    as (s' & Hrun & _ & Hdb & Hu & Hc).
  exists s'. unfold buildItemProperties, bind. by rewrite Hrun.
Qed.

End PropertyMapper.

Section MapperClaims.

Import Notion NotionMethods.

Variable host : Host.

Lemma blank_requests (item : NoteroItem) (d : Definition_) :
  blank item -> d ∈ propertyDefinitions item ->
  empty_representation (buildRequest d tt) = true.
Proof.
  intros (Ha & Hau & Hdoi & He & Hf & Hfc & Hic & Hit & Htg & Ht & Hu & Hy & Hz)
    Hd.
  each_definition Hd; cbn [buildRequest];
    rewrite ?Ha, ?Hau, ?Hdoi, ?He, ?Hf, ?Hfc, ?Hic, ?Hit, ?Htg, ?Ht, ?Hu,
      ?Hy, ?Hz; reflexivity.
Qed.

(** C4 (amended): with the schema at hand the mapper returns a payload and
    raises no error, whatever the item's values; the payload always holds
    the page title under the key [title], which is not looked up in the
    schema; every other field of the payload has its name and type in the
    schema; every field definition whose name and type are in the schema is
    in the payload with what its producer returns, and for an item whose
    values are all empty or absent that is the empty representation. *)
Theorem buildItemProperties_follows_schema (item : NoteroItem) (s : Store)
    (schema : DatabaseProperties) :
  schema_in host s schema ->
  exists payload s',
    buildItemProperties host item s = (Ok payload, s') /\
    payload !! "title" = Some (titleProperty item) /\
    (forall k p, payload !! k = Some p -> k <> "title" ->
       exists ty, schema !! k = Some ty /\ ptype p = Some ty /\ pkey p = ty) /\
    (forall d, d ∈ propertyDefinitions item ->
       schema !! name d = Some (type d) ->
       payload !! name d = Some (entry d)) /\
    (blank item ->
     forall k p, payload !! k = Some p ->
       empty_representation (prequest p) = true).
Proof.
  intros Hs. destruct (buildItemProperties_run host item s schema Hs)
    as (s' & Hrun & _).
  exists (assemble schema item), s'. split; [exact Hrun |].
  split; [apply assemble_title |]. split; [| split].
  - intros k p Hp Hk.
    destruct (assemble_sound schema item k p Hp Hk) as (d & _ & _ & Hty & ->).
    by exists (type d).
  - apply assemble_complete.
  - intros Hb k p Hp. destruct (decide (k = "title")) as [-> | Hk].
    + rewrite assemble_title in Hp. injection Hp as <-.
      destruct Hb as (_ & _ & _ & _ & _ & _ & Hic & _ & _ & Ht & _).
      cbn. by rewrite Hic, Ht.
    + destruct (assemble_sound schema item k p Hp Hk) as (d & Hd & _ & _ & ->).
      by apply (blank_requests item).
Qed.


End MapperClaims.

(** ** The upsert *)

Section Upsert.

Import Notion NotionMethods.

Variable host : Host.

Lemma request_run {A} (e : Effect) (answer : Trace -> Result A) (s : Store) :
  request host e answer s
  = (answer (trace s),
     extend s (requested host (client (this s)) e (answer (trace s)))).
Proof. unfold request, requested. by destruct (answer (trace s)). Qed.

(** The result and the store of [saveItemToDatabase], case by case. *)
Lemma saveItemToDatabase_run (item : NoteroItem) (s s1 : Store)
    (properties : DatabasePageProperties) :
  buildItemProperties host item s = (Ok properties, s1) ->
  let db := databaseID (this s1) in
  let c := client (this s1) in
  (has_pageID (getNotionPageID item) = false ->
     let created := pages_create host (trace s1) db properties in
     saveItemToDatabase host item s
     = (created,
        extend s1 (requested host c (PagesCreate db properties) created))) /\
  (forall pid, getNotionPageID item = Some pid -> pid <> "" ->
     match pages_update host (trace s1) pid properties with
     | Ok response =>
         saveItemToDatabase host item s
         = (Ok response, extend s1 [PagesUpdate pid properties])
     | Throw error =>
         let failed :=
           PagesUpdate pid properties :: failure_log host c error in
         if isObjectNotFound error then
           let created :=
             pages_create host (trace s1 ++ failed) db properties in
           saveItemToDatabase host item s
           = (created,
              extend s1
                (failed
                 ++ requested host c (PagesCreate db properties) created))
         else
           saveItemToDatabase host item s = (Throw error, extend s1 failed)
     end).
Proof.
  intros Hbuild db c. split.
  - intros Hno created. unfold saveItemToDatabase, bind.
    rewrite Hbuild, Hno. unfold pages_create_call. by rewrite request_run.
  - intros pid Hpid Hne.
    assert (Hyes : has_pageID (getNotionPageID item) = true).
    { rewrite Hpid. cbn. by apply negb_true_iff, String.eqb_neq. }
    unfold saveItemToDatabase, bind. rewrite Hbuild, Hyes, Hpid.
    unfold try_catch, pages_update_call. rewrite request_run.
    change (default "" (Some pid)) with pid.
    destruct (pages_update host (trace s1) pid properties) as [r | e];
      [reflexivity |].
    unfold isObjectNotFound. cbn [requested].
    destruct (isAPIResponseError e); cbn [negb orb andb]; [| reflexivity].
    destruct (bool_decide (code e = Some ObjectNotFound));
      cbn [negb]; [| reflexivity].
    unfold pages_create_call. rewrite request_run.
    cbn [extend this trace]. fold db. fold c. unfold extend. cbn [this trace].
    by rewrite <- app_assoc.
Qed.

End Upsert.

(** ** Change sets *)

Section ChangeSets.

Lemma Set_add_elem (acc : list Z) (x y : Z) :
  x ∈ Set_add acc y <-> x ∈ acc \/ x = y.
Proof.
  unfold Set_add. case_bool_decide as Hy.
  - split; [by left | intros [H | ->]; done].
  - rewrite elem_of_app, list_elem_of_singleton. tauto.
Qed.

Lemma Set_add_NoDup (acc : list Z) (y : Z) :
  NoDup acc -> NoDup (Set_add acc y).
Proof.
  intros Hnd. unfold Set_add. case_bool_decide as Hy; [exact Hnd |].
  apply NoDup_app. split; [exact Hnd |]. split.
  - intros x Hx Hx'. apply list_elem_of_singleton in Hx'. by subst x.
  - apply NoDup_singleton.
Qed.

Lemma foldl_Set_add_elem (l acc : list Z) (x : Z) :
  x ∈ foldl Set_add acc l <-> x ∈ acc \/ x ∈ l.
Proof.
  revert acc. induction l as [| y l IH]; intros acc; simpl.
  - rewrite elem_of_nil. tauto.
  - rewrite IH, Set_add_elem, elem_of_cons. tauto.
Qed.

Lemma foldl_Set_add_NoDup (l acc : list Z) :
  NoDup acc -> NoDup (foldl Set_add acc l).
Proof.
  revert acc. induction l as [| y l IH]; intros acc Hnd; simpl;
    [exact Hnd |]. by apply IH, Set_add_NoDup.
Qed.

Lemma foldl_Set_add_fresh (l acc : list Z) :
  NoDup (acc ++ l) -> foldl Set_add acc l = acc ++ l.
Proof.
  revert acc. induction l as [| y l IH]; intros acc Hnd; simpl.
  - by rewrite app_nil_r.
  - assert (Hy : y ∉ acc).
    { apply NoDup_app in Hnd as (_ & Hdis & _). intros Hin.
      apply (Hdis y Hin). left. }
    unfold Set_add at 2. rewrite bool_decide_eq_false_2 by exact Hy.
    rewrite IH; rewrite <- app_assoc; [reflexivity | exact Hnd].
Qed.

Lemma Set_of_elem (l : list Z) (x : Z) : x ∈ Set_of l <-> x ∈ l.
Proof. unfold Set_of. rewrite foldl_Set_add_elem, elem_of_nil. tauto. Qed.

Lemma Set_of_NoDup (l : list Z) : NoDup (Set_of l).
Proof. apply foldl_Set_add_NoDup, NoDup_nil_2. Qed.

Lemma Set_of_nonempty (l : list Z) : l <> [] -> Set_of l <> [].
Proof.
  destruct l as [| x l]; [done |]. intros _ Hnil.
  assert (Hx : x ∈ Set_of (x :: l)) by (apply Set_of_elem; left).
  rewrite Hnil in Hx. by apply elem_of_nil in Hx.
Qed.

Lemma Set_of_merge (a b : list Z) : Set_of (Set_of a ++ b) = Set_of (a ++ b).
Proof.
  unfold Set_of. rewrite !foldl_app. f_equal.
  change (foldl Set_add [] (foldl Set_add [] a)) with
    (foldl Set_add [] (Set_of a)).
  rewrite foldl_Set_add_fresh; [reflexivity |]. apply Set_of_NoDup.
Qed.

End ChangeSets.

(** ** The debounce queue and the coordinator *)

Section Scheduler.

Import Notero.

Variable host : Host.
Variable prefs : Prefs.

Lemma clearTimeout_only (tid : positive) (due : Z) :
  List.filter (fun t : positive * Z => negb (Pos.eqb (fst t) tid)) [(tid, due)]
  = [].
Proof. cbn. by rewrite Pos.eqb_refl. Qed.

(** An enqueue of at least one item from a well-formed state. *)
Lemma enqueue_result (items : list Z) (st : State) :
  timer_of st -> items <> [] ->
  enqueueItemsToSync items st
  = {| queuedSync :=
         Some {| itemIDs :=
                   Set_of (from_option itemIDs [] (queuedSync st) ++ items);
                 timeoutID := Some (nextTimeoutID st) |};
       syncInProgress := syncInProgress st; clock := clock st;
       timers := [(nextTimeoutID st, clock st + SYNC_DEBOUNCE_MS)];
       nextTimeoutID := Pos.succ (nextTimeoutID st);
       inflight := inflight st; suspended := suspended st;
       batches := batches st; effects := effects st |}.
Proof.
  intros Ht Hne. destruct items as [| i items]; [done |].
  unfold enqueueItemsToSync, timer_of in *.
  destruct (queuedSync st) as [[ids [tid |]] |].
  - destruct Ht as (due & Ht & _).
    unfold setTimeout, clearTimeout, set_queuedSync, set_timers. cbn.
    rewrite Ht, clearTimeout_only. reflexivity.
  - unfold setTimeout, set_queuedSync. cbn. by rewrite Ht.
  - unfold setTimeout, set_queuedSync. cbn. by rewrite Ht.
Qed.

(** Time passes and no timer is due. *)
Lemma elapse_idle (dt : Z) (st : State) :
  0 <= dt -> Forall (fun t => clock st + dt < snd t) (timers st) ->
  elapse dt st = set_clock (clock st + dt) st.
Proof.
  intros Hdt Hlate. unfold elapse. rewrite (proj2 (Z.leb_le 0 dt)) by done.
  replace (List.filter _ (timers st)) with (@nil (positive * Z));
    [reflexivity |].
  symmetry. induction Hlate as [| t ts Ht _ IH]; [reflexivity |].
  cbn. rewrite IH. by rewrite (proj2 (Z.leb_gt _ _) Ht).
Qed.

(** Time passes and the pending timer fires. *)
Lemma elapse_fires (dt : Z) (st : State) (ids : list Z) (tid : positive)
    (due : Z) :
  0 <= dt ->
  queuedSync st = Some {| itemIDs := ids; timeoutID := Some tid |} ->
  timers st = [(tid, due)] -> due <= clock st + dt ->
  elapse dt st
  = if syncInProgress st then
      {| queuedSync := Some {| itemIDs := ids; timeoutID := None |};
         syncInProgress := true; clock := clock st + dt; timers := [];
         nextTimeoutID := nextTimeoutID st; inflight := inflight st;
         suspended := suspended st; batches := batches st;
         effects := effects st |}
    else
      {| queuedSync := None; syncInProgress := true; clock := clock st + dt;
         timers := []; nextTimeoutID := nextTimeoutID st;
         inflight := ids :: inflight st; suspended := suspended st;
         batches := batches st ++ [ids]; effects := effects st |}.
Proof.
  intros Hdt Hq Ht Hdue. unfold elapse.
  rewrite (proj2 (Z.leb_le 0 dt)) by done. rewrite Ht. cbn [List.filter snd].
  rewrite (proj2 (Z.leb_le _ _) Hdue). cbn [foldl].
  unfold fire, timeoutCallback, clearTimeout, set_timers, set_clock,
    set_queuedSync, performSync. cbn. rewrite Hq, Ht. cbn.
  rewrite Pos.eqb_refl. cbn. by destruct (syncInProgress st).
Qed.

Lemma initial_wf : wf initial.
Proof. split; [reflexivity | split; [reflexivity | intros q Hq; discriminate]]. Qed.

Lemma enqueue_wf (items : list Z) (st : State) :
  wf st -> wf (enqueueItemsToSync items st).
Proof.
  intros (Ht & Hf & Hq). destruct (decide (items = [])) as [-> | Hne];
    [by split |].
  rewrite (enqueue_result items st Ht Hne). split; [| split].
  - unfold timer_of. cbn. eexists. split; [reflexivity |].
    unfold SYNC_DEBOUNCE_MS. lia.
  - exact Hf.
  - intros q [= <-]. cbn. split; [apply Set_of_NoDup |].
    apply Set_of_nonempty. destruct items; [done |].
    by destruct (from_option _ _ _).
Qed.

Lemma elapse_wf (dt : Z) (st : State) : wf st -> wf (elapse dt st).
Proof.
  intros (Ht & Hf & Hq). destruct (Z.leb_spec 0 dt) as [Hdt | Hdt].
  2: { unfold elapse. rewrite (proj2 (Z.leb_gt _ _) Hdt). by split. }
  assert (Hkeep : timer_of (set_clock (clock st + dt) st) ->
                  wf (set_clock (clock st + dt) st)).
  { intros Ht'. split; [exact Ht' | split; [exact Hf | exact Hq]]. }
  unfold timer_of, inflight_length in *.
  destruct (queuedSync st) as [[ids [tid |]] |] eqn:Hqs.
  - destruct Ht as (due & Ht & Hdue).
    destruct (Z.le_gt_cases due (clock st + dt)) as [Hfire | Hlate].
    + rewrite (elapse_fires dt st ids tid due Hdt Hqs Ht Hfire).
      destruct (Hq _ eq_refl) as [Hnd Hne].
      destruct (syncInProgress st); (split; [| split]).
      * reflexivity.
      * exact Hf.
      * by intros q [= <-].
      * reflexivity.
      * unfold inflight_length. cbn. by rewrite Hf.
      * intros q Hq'. discriminate.
    + rewrite elapse_idle; [| done | rewrite Ht; repeat constructor; cbn; lia].
      apply Hkeep. cbn. rewrite Hqs. exists due. split; [done | lia].
  - rewrite elapse_idle; [| done | rewrite Ht; constructor].
    apply Hkeep. cbn. by rewrite Hqs.
  - rewrite elapse_idle; [| done | rewrite Ht; constructor].
    apply Hkeep. cbn. by rewrite Hqs.
Qed.

(** The settling of the pending [saveItemsToNotion] from a well-formed
    state in which one is pending. *)
Lemma saveSettled_result (st : State) :
  wf st -> syncInProgress st = true ->
  exists batch,
    inflight st = [batch] /\
    saveSettled host prefs st
    = match queuedSync st with
      | Some {| itemIDs := ids; timeoutID := None |} =>
          {| queuedSync := None; syncInProgress := true; clock := clock st;
             timers := timers st; nextTimeoutID := nextTimeoutID st;
             inflight := [ids]; suspended := S (suspended st);
             batches := batches st ++ [ids];
             effects := saveItemsToNotion host prefs batch (effects st) |}
      | _ =>
          {| queuedSync := queuedSync st; syncInProgress := false;
             clock := clock st; timers := timers st;
             nextTimeoutID := nextTimeoutID st; inflight := [];
             suspended := 0%nat; batches := batches st;
             effects := saveItemsToNotion host prefs batch (effects st) |}
      end.
Proof.
  intros (_ & Hf & _) Hflag. unfold inflight_length in Hf.
  rewrite Hflag in Hf. unfold saveSettled.
  destruct (inflight st) as [| batch [| b rest]]; [done | | done].
  exists batch. split; [reflexivity |].
  unfold performSync_settled. cbn [queuedSync].
  by destruct (queuedSync st) as [[ids [tid |]] |] eqn:Hqs.
Qed.

Lemma saveSettled_idle (st : State) :
  wf st -> syncInProgress st = false -> saveSettled host prefs st = st.
Proof.
  intros (_ & Hf & _) Hflag. unfold inflight_length in Hf.
  rewrite Hflag in Hf. unfold saveSettled.
  by destruct (inflight st).
Qed.

Lemma saveSettled_wf (st : State) : wf st -> wf (saveSettled host prefs st).
Proof.
  intros Hwf. destruct (syncInProgress st) eqn:Hflag.
  2: { by rewrite saveSettled_idle. }
  destruct (saveSettled_result st Hwf Hflag) as (batch & Hin & ->).
  destruct Hwf as (Ht & Hf & Hq). unfold timer_of in Ht.
  destruct (queuedSync st) as [[ids [tid |]] |] eqn:Hqs;
    (split; [| split]); try reflexivity.
  - exact Ht.
  - exact Hq.
  - exact Ht.
  - intros q Hq'. discriminate.
  - exact Ht.
  - intros q Hq'. discriminate.
Qed.

Lemma notify_wf (event type : string) (ids : list (list Z)) (st : State) :
  wf st -> wf (notify host prefs event type ids st).
Proof.
  intros Hwf. unfold notify, onAddItemsToCollection, onModifyItems.
  destruct (notify_handler prefs event type) as [[|] |]; [| | done];
    destruct (loadSyncEnabledCollectionIDs host); try done;
    by apply enqueue_wf.
Qed.

Lemma step_wf (st : State) (ev : Event) :
  wf st -> wf (step host prefs st ev).
Proof.
  intros Hwf. destruct ev; cbn.
  - by apply notify_wf.
  - by apply enqueue_wf.
  - by apply elapse_wf.
  - by apply saveSettled_wf.
Qed.

Lemma run_wf (evs : list Event) (st : State) :
  wf st -> wf (run host prefs evs st).
Proof.
  revert st. induction evs as [| ev evs IH]; intros st Hwf; [exact Hwf |].
  cbn. by apply IH, step_wf.
Qed.

Lemma elapse_while_running (dt : Z) (st : State) :
  wf st -> syncInProgress st = true ->
  inflight (elapse dt st) = inflight st
  /\ batches (elapse dt st) = batches st
  /\ syncInProgress (elapse dt st) = true
  /\ itemIDs <$> queuedSync (elapse dt st) = itemIDs <$> queuedSync st.
Proof.
  intros (Ht & _ & _) Hflag. destruct (Z.leb_spec 0 dt) as [Hdt | Hdt].
  2: { unfold elapse. by rewrite (proj2 (Z.leb_gt _ _) Hdt). }
  unfold timer_of in Ht.
  destruct (queuedSync st) as [[ids [tid |]] |] eqn:Hqs.
  - destruct Ht as (due & Ht & Hdue).
    destruct (Z.le_gt_cases due (clock st + dt)) as [Hfire | Hlate].
    + rewrite (elapse_fires dt st ids tid due Hdt Hqs Ht Hfire), Hflag.
      by rewrite ?Hqs.
    + rewrite elapse_idle; [| done | rewrite Ht; repeat constructor; cbn; lia].
      cbn. by rewrite ?Hqs.
  - rewrite elapse_idle; [| done | rewrite Ht; constructor]. cbn.
    by rewrite ?Hqs.
  - rewrite elapse_idle; [| done | rewrite Ht; constructor]. cbn.
    by rewrite ?Hqs.
Qed.

Lemma enqueue_while_running (items : list Z) (st : State) :
  wf st ->
  inflight (enqueueItemsToSync items st) = inflight st
  /\ batches (enqueueItemsToSync items st) = batches st
  /\ syncInProgress (enqueueItemsToSync items st) = syncInProgress st.
Proof.
  intros (Ht & _ & _). destruct (decide (items = [])) as [-> | Hne]; [done |].
  by rewrite (enqueue_result items st Ht Hne).
Qed.

(** C2 (amended): in every state the engine can reach, at most one
    [saveItemsToNotion] is pending, and one is pending exactly while
    [syncInProgress] is set.  While it is set, neither the passing of time
    (a timer firing included) nor an enqueue starts a pass, and the queued
    identifiers stay queued.  When the pass settles, identifiers whose
    timer has fired meanwhile go to a new pass at once, before the flag is
    cleared; identifiers whose timer is still pending stay queued while the
    engine becomes idle, and go to a pass when that timer fires. *)
Theorem single_flight (evs : list Event) :
  let st := run host prefs evs initial in
  ((length (inflight st) <= 1)%nat /\
   (syncInProgress st = true <-> length (inflight st) = 1%nat)) /\
  (syncInProgress st = true ->
   forall dt,
     let st' := step host prefs st (Elapse dt) in
     inflight st' = inflight st /\ batches st' = batches st
     /\ syncInProgress st' = true
     /\ itemIDs <$> queuedSync st' = itemIDs <$> queuedSync st) /\
  (syncInProgress st = true ->
   forall items,
     let st' := step host prefs st (Enqueue items) in
     inflight st' = inflight st /\ batches st' = batches st
     /\ syncInProgress st' = true) /\
  (syncInProgress st = true ->
   forall ids,
     queuedSync st = Some {| itemIDs := ids; timeoutID := None |} ->
     let st' := step host prefs st SaveSettled in
     inflight st' = [ids] /\ batches st' = batches st ++ [ids]
     /\ queuedSync st' = None /\ syncInProgress st' = true) /\
  (syncInProgress st = true ->
   forall ids tid,
     queuedSync st = Some {| itemIDs := ids; timeoutID := Some tid |} ->
     let st' := step host prefs st SaveSettled in
     let st'' := step host prefs st' (Elapse SYNC_DEBOUNCE_MS) in
     (inflight st' = [] /\ batches st' = batches st
      /\ queuedSync st' = queuedSync st /\ syncInProgress st' = false) /\
     (inflight st'' = [ids] /\ batches st'' = batches st ++ [ids]
      /\ queuedSync st'' = None /\ syncInProgress st'' = true)) /\
  (syncInProgress st = true -> queuedSync st = None ->
   let st' := step host prefs st SaveSettled in
   inflight st' = [] /\ batches st' = batches st
   /\ queuedSync st' = None /\ syncInProgress st' = false).
Proof.
  intros st. assert (Hwf : wf st) by apply run_wf, initial_wf.
  split; [| split; [| split; [| split; [| split]]]].
  - destruct Hwf as (_ & Hf & _). unfold inflight_length in Hf.
    destruct (syncInProgress st); rewrite Hf; split; try lia; split; done.
  - intros Hflag dt. by apply elapse_while_running.
  - intros Hflag items. cbn [step].
    destruct (enqueue_while_running items st Hwf) as (H1 & H2 & H3).
    by rewrite H1, H2, H3.
  - intros Hflag ids Hq. cbn [step].
    destruct (saveSettled_result st Hwf Hflag) as (batch & _ & ->).
    by rewrite Hq.
  - intros Hflag ids tid Hq. cbn [step].
    destruct (saveSettled_result st Hwf Hflag) as (batch & _ & ->).
    rewrite Hq. split; [done |].
    destruct Hwf as (Ht & _ & _). unfold timer_of in Ht. rewrite Hq in Ht.
    destruct Ht as (due & Ht & Hdue).
    erewrite elapse_fires;
      [| unfold SYNC_DEBOUNCE_MS; lia | reflexivity | exact Ht | cbn; lia].
    done.
  - intros Hflag Hq. cbn [step].
    destruct (saveSettled_result st Hwf Hflag) as (batch & _ & ->).
    by rewrite Hq.
Qed.

End Scheduler.

(** ** What a method adds to the trace *)

Section Effects.

Import Notion NotionMethods Notero.

Variable host : Host.

Lemma only_ret {A} (kind : Effect -> bool) (a : A) : only kind (ret a).
Proof. intros s r s' [= <- <-]. exists []. by rewrite app_nil_r. Qed.

Lemma only_throw {A} (kind : Effect -> bool) (e : JSError) :
  only kind (@throw A e).
Proof. intros s r s' [= <- <-]. exists []. by rewrite app_nil_r. Qed.

Lemma only_call {A} (kind : Effect -> bool) (e : Effect)
    (answer : Trace -> Result A) :
  kind e = true -> only kind (call e answer).
Proof. intros He s r s' [= <- <-]. exists [e]. by repeat constructor. Qed.

Lemma only_emit (kind : Effect -> bool) (e : Effect) :
  kind e = true -> only kind (emit e).
Proof. intros He s r s' [= <- <-]. exists [e]. by repeat constructor. Qed.

Lemma only_bind {A B} (kind : Effect -> bool) (m : M A) (k : A -> M B) :
  only kind m -> (forall a, only kind (k a)) -> only kind (bind m k).
Proof.
  intros Hm Hk s r s'. unfold bind.
  destruct (m s) as [[a | e] s1] eqn:Hrun; intros Hr.
  - destruct (Hm _ _ _ Hrun) as (x1 & E1 & F1).
    destruct (Hk a _ _ _ Hr) as (x2 & E2 & F2).
    exists (x1 ++ x2). rewrite E2, E1, app_assoc.
    split; [reflexivity | by apply Forall_app].
  - injection Hr as <- <-. by apply (Hm _ _ _ Hrun).
Qed.

Lemma only_try_catch {A} (kind : Effect -> bool) (m : M A)
    (handler : JSError -> M A) :
  only kind m -> (forall e, only kind (handler e)) ->
  only kind (try_catch m handler).
Proof.
  intros Hm Hh s r s'. unfold try_catch.
  destruct (m s) as [[a | e] s1] eqn:Hrun; intros Hr.
  - injection Hr as <- <-. by apply (Hm _ _ _ Hrun).
  - destruct (Hm _ _ _ Hrun) as (x1 & E1 & F1).
    destruct (Hh e _ _ _ Hr) as (x2 & E2 & F2).
    exists (x1 ++ x2). rewrite E2, E1, app_assoc.
    split; [reflexivity | by apply Forall_app].
Qed.

Lemma only_weaken {A} (kind kind' : Effect -> bool) (m : M A) :
  (forall e, kind e = true -> kind' e = true) -> only kind m ->
  only kind' m.
Proof.
  intros Hsub Hm s r s' Hrun. destruct (Hm _ _ _ Hrun) as (x & E & F).
  exists x. split; [exact E |]. eapply Forall_impl; [exact F | exact Hsub].
Qed.

Lemma failure_log_logs (c : Client) (error : JSError) :
  Forall (fun e => is_log e = true) (failure_log host c error).
Proof.
  unfold failure_log. apply Forall_fmap, Forall_forall. by intros entry _.
Qed.

Lemma only_request {A} (kind : Effect -> bool) (e : Effect)
    (answer : Trace -> Result A) :
  kind e = true -> (forall x, is_log x = true -> kind x = true) ->
  only kind (request host e answer).
Proof.
  intros He Hlog s r s'. rewrite request_run. intros [= <- <-].
  eexists. split; [reflexivity |]. unfold requested.
  constructor; [exact He |]. destruct (answer (trace s)); [constructor |].
  eapply Forall_impl; [apply failure_log_logs | exact Hlog].
Qed.

Lemma getDatabaseProperties_only :
  only (fun e => is_retrieve e || is_log e) (getDatabaseProperties host).
Proof.
  intros s r s'. destruct (_databaseProperties (this s)) as [props |] eqn:Hc.
  - rewrite (getDatabaseProperties_hit host s props Hc). intros [= <- <-].
    exists []. by rewrite app_nil_r.
  - rewrite (getDatabaseProperties_miss host s Hc).
    destruct (databases_retrieve host (trace s) (databaseID (this s)));
      intros [= <- <-]; eexists; (split; [reflexivity |]).
    + by repeat constructor.
    + constructor; [reflexivity |].
      eapply Forall_impl; [apply failure_log_logs |]. intros x ->.
      apply orb_true_r.
Qed.

Lemma buildItemProperties_only (item : NoteroItem) :
  only (fun e => is_retrieve e || is_log e) (buildItemProperties host item).
Proof.
  apply only_bind; [apply getDatabaseProperties_only |].
  intros a. apply only_ret.
Qed.

Lemma pages_create_call_only (properties : DatabasePageProperties) :
  only (fun e => is_create e || is_log e) (pages_create_call host properties).
Proof.
  intros s r s' Hrun. unfold pages_create_call in Hrun.
  revert Hrun. apply only_request; [reflexivity |]. intros x ->.
  apply orb_true_r.
Qed.

Lemma saveItemToDatabase_only (item : NoteroItem) :
  only (fun e => is_remote e || is_log e) (saveItemToDatabase host item).
Proof.
  unfold saveItemToDatabase. apply only_bind.
  - apply (only_weaken (fun e => is_retrieve e || is_log e));
      [| apply buildItemProperties_only].
    by intros [].
  - intros properties. destruct (has_pageID (getNotionPageID item)).
    + apply only_try_catch.
      * apply only_request; [reflexivity |]. intros x ->. apply orb_true_r.
      * intros e. destruct (_ || _); [apply only_throw |].
        apply (only_weaken (fun e => is_create e || is_log e));
          [| apply pages_create_call_only].
        by intros [].
    + apply (only_weaken (fun e => is_create e || is_log e));
        [| apply pages_create_call_only].
      by intros [].
Qed.

Lemma saveItemToNotion_only (item : NoteroItem) :
  only (fun e => negb (is_setText e)) (saveItemToNotion host item).
Proof.
  unfold saveItemToNotion. apply only_bind.
  - apply (only_weaken (fun e => is_remote e || is_log e));
      [| apply saveItemToDatabase_only].
    by intros [].
  - intros response. apply only_bind; [by apply only_call |].
    intros _. destruct (page_url response); [by apply only_call |].
    apply only_ret.
Qed.

End Effects.

(** ** The upsert and the batch loop *)

Section Batch.

Import Notion NotionMethods Notero.

Variable host : Host.
Variable prefs : Prefs.

Lemma upsert_calls_app (t extra : Trace) :
  upsert_calls t (t ++ extra)
  = List.filter (fun e => is_update e || is_create e) extra.
Proof. unfold upsert_calls. by rewrite drop_app_length. Qed.

Lemma filter_none (kind kind' : Effect -> bool) (extra : Trace) :
  (forall e, kind e = true -> kind' e = false) ->
  Forall (fun e => kind e = true) extra -> List.filter kind' extra = [].
Proof.
  intros Hk. induction 1 as [| e extra He _ IH]; [reflexivity |].
  cbn. by rewrite (Hk e He).
Qed.

(** C3 (amended): building the payload comes first; when it fails,
    [saveItemToDatabase] throws that error and makes no update and no create
    call.  Once the payload is built, an item without a stored page
    identifier gets exactly one create call and no update call; an item with
    one gets one update call, followed by exactly one create call and no
    second update when the update fails with the not-found error, and by
    nothing when it fails otherwise, in which case the error is what the
    caller gets. *)
Theorem saveItemToDatabase_dispatch (item : NoteroItem) (s : Store) :
  let result := fst (saveItemToDatabase host item s) in
  let calls :=
    upsert_calls (trace s) (trace (snd (saveItemToDatabase host item s))) in
  match buildItemProperties host item s with
  | (Throw error, s1) =>
      result = Throw error /\ calls = []
      /\ snd (saveItemToDatabase host item s) = s1
  | (Ok properties, s1) =>
      let db := databaseID (this s1) in
      (has_pageID (getNotionPageID item) = false ->
         result = pages_create host (trace s1) db properties
         /\ calls = [PagesCreate db properties]) /\
      (forall pid, getNotionPageID item = Some pid -> pid <> "" ->
         match pages_update host (trace s1) pid properties with
         | Ok response =>
             result = Ok response /\ calls = [PagesUpdate pid properties]
         | Throw error =>
             if isObjectNotFound error then
               result
               = pages_create host
                   (trace s1
                    ++ PagesUpdate pid properties
                       :: failure_log host (client (this s1)) error)
                   db properties
               /\ calls
                  = [PagesUpdate pid properties; PagesCreate db properties]
             else
               result = Throw error /\ calls = [PagesUpdate pid properties]
         end)
  end.
Proof.
  intros result calls.
  destruct (buildItemProperties host item s) as [[properties | e] s1]
    eqn:Hbuild.
  2: { unfold result, calls, saveItemToDatabase, bind. rewrite Hbuild.
       cbn [fst snd]. split; [reflexivity |]. split; [| reflexivity].
       destruct (buildItemProperties_only host item _ _ _ Hbuild)
         as (extra & -> & Hextra).
       rewrite upsert_calls_app.
       apply (filter_none (fun e => is_retrieve e || is_log e));
         [by intros [] | exact Hextra]. }
  intros db.
  destruct (buildItemProperties_only host item _ _ _ Hbuild)
    as (extra & Htrace & Hextra).
  assert (Hnone : List.filter (fun e => is_update e || is_create e) extra
                  = []).
  { apply (filter_none (fun e => is_retrieve e || is_log e));
      [by intros [] | exact Hextra]. }
  assert (Hlogs : forall error,
    List.filter (fun e => is_update e || is_create e)
      (failure_log host (client (this s1)) error) = []).
  { intros error. apply (filter_none is_log); [by intros [] |].
    apply failure_log_logs. }
  assert (Hcalls : forall more,
    upsert_calls (trace s) (trace (extend s1 more))
    = List.filter (fun e => is_update e || is_create e) more).
  { intros more. cbn [extend trace]. rewrite Htrace, <- app_assoc.
    by rewrite upsert_calls_app, List.filter_app, Hnone. }
  destruct (saveItemToDatabase_run host item s s1 properties Hbuild)
    as [Hcreate Hupdate].
  split.
  - intros Hno. unfold result, calls. rewrite (Hcreate Hno).
    split; [reflexivity |]. cbn [snd]. rewrite Hcalls. unfold requested.
    cbn [List.filter is_update is_create orb]. f_equal.
    destruct (pages_create host (trace s1) (databaseID (this s1)) properties);
      [reflexivity | apply Hlogs].
  - intros pid Hpid Hne. specialize (Hupdate pid Hpid Hne).
    cbn zeta in Hupdate. unfold result, calls. fold db in Hupdate.
    destruct (pages_update host (trace s1) pid properties) as [r | e].
    + rewrite Hupdate. split; [reflexivity |]. cbn [snd]. by rewrite Hcalls.
    + destruct (isObjectNotFound e); rewrite Hupdate;
        (split; [reflexivity |]); cbn [snd]; rewrite Hcalls.
      * cbn [app List.filter is_update is_create orb].
        rewrite List.filter_app, Hlogs. cbn [app requested List.filter
          is_update is_create orb]. do 2 f_equal.
        destruct (pages_create host _ db properties);
          [reflexivity | apply Hlogs].
      * cbn [List.filter is_update is_create orb]. f_equal. apply Hlogs.
Qed.

Lemma loop_aborts (total : nat) (before : list NoteroItem) (step : nat)
    (item : NoteroItem) (after : list NoteroItem) (s s_k s_fail : Store)
    (e : JSError) :
  saveItems_loop host total step before s = (Ok tt, s_k) ->
  saveItemToNotion host item
    (extend s_k [SetText (S (step + length before)) total])
  = (Throw e, s_fail) ->
  saveItems_loop host total step (before ++ item :: after) s
  = (Throw e, s_fail).
Proof.
  revert step s. induction before as [| b before IH]; intros step s Hok Hfail.
  - injection Hok as <-. cbn [length] in Hfail. rewrite Nat.add_0_r in Hfail.
    cbn [app saveItems_loop]. unfold bind at 1. cbn [emit].
    unfold extend in Hfail. unfold bind at 1. by rewrite Hfail.
  - cbn [app saveItems_loop] in *. unfold bind at 1 in Hok.
    unfold bind at 1. cbn [emit] in *. unfold bind at 1 in Hok.
    unfold bind at 1.
    destruct (saveItemToNotion host b _) as [[[] | e'] s1]; [| done].
    unfold bind at 1 in Hok. unfold bind at 1. cbn [emit] in *.
    apply IH; [exact Hok |]. cbn [length] in Hfail.
    by rewrite Nat.add_succ_r in Hfail.
Qed.

Lemma loop_attempts (total : nat) (items : list NoteroItem) (step : nat)
    (s s' : Store) :
  saveItems_loop host total step items s = (Ok tt, s') ->
  exists extra,
    trace s' = trace s ++ extra /\
    List.filter is_setText extra
    = (fun k => SetText k total) <$> seq (S step) (length items).
Proof.
  revert step s. induction items as [| b items IH]; intros step s Hok.
  - injection Hok as <-. exists []. by rewrite app_nil_r.
  - cbn [saveItems_loop] in Hok. unfold bind at 1 in Hok. cbn [emit] in Hok.
    unfold bind at 1 in Hok.
    destruct (saveItemToNotion host b _) as [[[] | e'] s1] eqn:Hb; [| done].
    destruct (saveItemToNotion_only host b _ _ _ Hb) as (x1 & E1 & F1).
    unfold bind at 1 in Hok. cbn [emit] in Hok.
    destruct (IH _ _ Hok) as (x2 & E2 & F2).
    exists ([SetText (S step) total] ++ x1 ++ [SetProgress (S step) total]
            ++ x2).
    split.
    + rewrite E2. cbn [trace]. rewrite E1. cbn [trace].
      by rewrite <- !app_assoc.
    + rewrite !List.filter_app, F2.
      rewrite (filter_none (fun e => negb (is_setText e)) is_setText x1);
        [reflexivity | | exact F1].
      intros e He. by apply negb_true_iff.
Qed.

Lemma attempts_app (t extra : Trace) :
  attempts t (t ++ extra) = List.filter is_setText extra.
Proof. unfold attempts. by rewrite drop_app_length. Qed.

(** C6: when the items before position [k] of a batch are saved and the
    save of the item at position [k] throws, the batch ends with that
    failure and its report: the attempts made are those of the positions up
    to [k] and none after, what the earlier items did stays as it was, and
    the settling of the pass leaves the queue as it finds it, so that no
    item of the batch is queued again. *)
Theorem saveItemsToNotion_aborts (itemIDs : list Z)
    (before : list NoteroItem) (item : NoteroItem) (after : list NoteroItem)
    (notion : Instance) (e : JSError) (t : Trace) (s_k s_fail : Store) :
  let items := before ++ item :: after in
  let total := length items in
  let opened :=
    t ++ [ChangeHeadline "Saving items to Notion..."; ShowProgressWindow;
          NewItemProgress] in
  let result := saveItemsToNotion host prefs itemIDs t in
  Items_getAll host itemIDs = items ->
  getNotion host prefs = Ok notion ->
  saveItems_loop host total 0 before {| this := notion; trace := opened |}
  = (Ok tt, s_k) ->
  saveItemToNotion host item (extend s_k [SetText (S (length before)) total])
  = (Throw e, s_fail) ->
  result = report e (trace s_fail) /\
  attempts t result
  = (fun k => SetText k total) <$> seq 1 (S (length before)) /\
  trace s_k `prefix_of` result /\
  (forall st others,
     inflight st = itemIDs :: others ->
     let st' := saveSettled host prefs st in
     effects st' = saveItemsToNotion host prefs itemIDs (effects st) /\
     match queuedSync st with
     | Some {| itemIDs := ids; timeoutID := None |} =>
         queuedSync st' = None /\ inflight st' = ids :: others
     | _ => queuedSync st' = queuedSync st /\ inflight st' = others
     end).
Proof.
  intros items total opened result Hitems Hnotion Hbefore Hfail.
  assert (Hloop : saveItems_loop host total 0 items
                    {| this := notion; trace := opened |}
                  = (Throw e, s_fail)).
  { by apply (loop_aborts total before 0 item after _ s_k). }
  assert (Hresult : result = report e (trace s_fail)).
  { unfold result, saveItemsToNotion. fold items. rewrite Hitems.
    unfold items at 1. destruct before; cbn [app]; rewrite Hnotion;
      fold items; fold total; fold opened;
      unfold bind at 1; by rewrite Hloop. }
  destruct (loop_attempts _ _ _ _ _ Hbefore) as (x1 & E1 & F1).
  destruct (saveItemToNotion_only host item _ _ _ Hfail) as (x2 & E2 & F2).
  cbn [extend trace] in E1, E2.
  assert (Hshape : result
    = t ++ ([ChangeHeadline "Saving items to Notion..."; ShowProgressWindow;
             NewItemProgress] ++ x1 ++ [SetText (S (length before)) total]
            ++ x2 ++ [Log (message e) "error"]
            ++ match stack e with
               | Some frames => [Log frames "error"]
               | None => []
               end
            ++ [SetError; AddDescription (message e)])).
  { rewrite Hresult. unfold report. rewrite E2, E1. unfold opened.
    by rewrite <- !app_assoc. }
  split; [exact Hresult |]. split; [| split].
  - rewrite Hshape, attempts_app, !List.filter_app, F1.
    rewrite (filter_none (fun e => negb (is_setText e)) is_setText x2);
      [| intros e0 He0; by apply negb_true_iff | exact F2].
    rewrite (seq_S (length before) 1), fmap_app.
    by destruct (stack e).
  - rewrite Hresult. unfold report. rewrite E2.
    rewrite <- !app_assoc. by apply prefix_app_r.
  - intros st others Hin st'. unfold st', saveSettled. rewrite Hin.
    unfold performSync_settled. cbn [queuedSync].
    by destruct (queuedSync st) as [[ids [tid |]] |].
Qed.

End Batch.

(** ** Page URLs *)

Section PageURLs.

Import NotionURLs.

Lemma starts_with_app (prefix rest : jsstring) :
  starts_with prefix (prefix ++ rest) = true.
Proof.
  unfold starts_with. apply bool_decide_eq_true. by rewrite take_app_length.
Qed.

Lemma starts_with_split (prefix text : jsstring) :
  starts_with prefix text = true ->
  text = prefix ++ drop (length prefix) text.
Proof.
  unfold starts_with. intros H%bool_decide_eq_true.
  rewrite <- H at 1. by rewrite take_drop.
Qed.

Lemma convert_https (rest : jsstring) :
  convertWebURLToLocal (HTTPS ++ rest) = URL_PROTOCOL ++ rest.
Proof.
  unfold convertWebURLToLocal. rewrite starts_with_app.
  by rewrite drop_app_length.
Qed.

Lemma page_url_matches (middle page : jsstring) :
  middle <> [] -> length page = 32%nat ->
  Forall (fun u => is_line_terminator u = false) middle ->
  Forall (fun u => is_hex u = true) page ->
  getPageIDFromURL (URL_PROTOCOL ++ middle ++ page) = Some page.
Proof.
  intros Hne Hlen Hmid Hhex. unfold getPageIDFromURL.
  rewrite starts_with_app, drop_app_length.
  replace (length (middle ++ page) - 32)%nat with (length middle)
    by (rewrite length_app; lia).
  rewrite take_app_length, drop_app_length.
  rewrite bool_decide_eq_false_2 by exact Hne. cbn [negb andb].
  replace (forallb (fun u => negb (is_line_terminator u)) middle) with true.
  2: { symmetry. apply forallb_forall. intros u Hu.
       apply list_elem_of_In in Hu.
       by rewrite (proj1 (Forall_forall _ _) Hmid u Hu). }
  replace (forallb is_hex page) with true; [reflexivity |].
  symmetry. apply forallb_forall. intros u Hu. apply list_elem_of_In in Hu.
  by apply (proj1 (Forall_forall _ _) Hhex).
Qed.

(** X1: [getPageIDFromURL] returns an identifier exactly for a URL made of
    the protocol [notion:], at least one code unit none of which is a line
    terminator, and 32 lower-case hexadecimal digits; the identifier is
    those 32 digits. *)
Theorem getPageIDFromURL_spec (url page : jsstring) :
  getPageIDFromURL url = Some page <->
  exists middle,
    url = URL_PROTOCOL ++ middle ++ page /\ middle <> [] /\
    length page = 32%nat /\
    Forall (fun u => is_line_terminator u = false) middle /\
    Forall (fun u => is_hex u = true) page.
Proof.
  split.
  - unfold getPageIDFromURL.
    set (rest := drop (length URL_PROTOCOL) url).
    destruct (starts_with URL_PROTOCOL url) eqn:Hp; [| discriminate].
    case_bool_decide as Hmid; [discriminate |]. cbn [negb andb].
    destruct (forallb _ (take _ rest)) eqn:Hlt; [| discriminate].
    destruct (forallb is_hex _) eqn:Hhex; [| discriminate].
    intros [= <-]. exists (take (length rest - 32) rest).
    assert (Hlong : (32 < length rest)%nat).
    { destruct (decide (32 < length rest)%nat) as [| Hshort]; [done |].
      exfalso. apply Hmid.
      replace (length rest - 32)%nat with 0%nat by lia. reflexivity. }
    split; [| split; [exact Hmid | split; [| split]]].
    + rewrite take_drop. by apply starts_with_split.
    + rewrite length_drop. lia.
    + apply Forall_forall. intros u Hu. apply list_elem_of_In in Hu.
      apply negb_true_iff. revert u Hu. by apply forallb_forall.
    + apply Forall_forall. intros u Hu. apply list_elem_of_In in Hu.
      revert u Hu. by apply forallb_forall.
  - intros (middle & -> & Hne & Hlen & Hmid & Hhex).
    by apply page_url_matches.
Qed.

Lemma getPageIDFromURL_spec_witness :
  getPageIDFromURL
    (str "notion://www.notion.so/A-B-0123456789abcdef0123456789abcdef")
  = Some Cases.page_id.
Proof.
  apply (proj2 (getPageIDFromURL_spec _ Cases.page_id)).
  exists (str "//www.notion.so/A-B-").
  split; [reflexivity |]. split; [discriminate |]. split; [reflexivity |].
  split; repeat constructor.
Defined.

(** X2: the web URL of a page, converted by [convertWebURLToLocal], gives
    back the page identifier it ends with through [getPageIDFromURL]. *)
Theorem web_url_round_trip (middle page : jsstring) :
  middle <> [] -> length page = 32%nat ->
  Forall (fun u => is_line_terminator u = false) middle ->
  Forall (fun u => is_hex u = true) page ->
  getPageIDFromURL (convertWebURLToLocal (HTTPS ++ middle ++ page))
  = Some page.
Proof.
  intros Hne Hlen Hmid Hhex. rewrite convert_https.
  by apply page_url_matches.
Qed.

Lemma web_url_round_trip_witness :
  getPageIDFromURL (convertWebURLToLocal Cases.web_url) = Some Cases.page_id.
Proof.
  apply (web_url_round_trip (str "//www.notion.so/A-B-") Cases.page_id).
  - discriminate.
  - reflexivity.
  - repeat constructor.
  - repeat constructor.
Defined.

(** X3: [convertWebURLToLocal] is idempotent, leaves a URL that does not
    begin with [https:] as it is, and is needed: a URL that still begins
    with [https:] has no page identifier for [getPageIDFromURL]. *)
Theorem convertWebURLToLocal_spec (url : jsstring) :
  convertWebURLToLocal (convertWebURLToLocal url) = convertWebURLToLocal url
  /\ (starts_with HTTPS url = false -> convertWebURLToLocal url = url)
  /\ (starts_with HTTPS url = true ->
      length (convertWebURLToLocal url) = S (length url)
      /\ getPageIDFromURL url = None).
Proof.
  unfold convertWebURLToLocal at 2 3 4 5.
  destruct (starts_with HTTPS url) eqn:Hs.
  - apply starts_with_split in Hs.
    split; [| split; [discriminate | intros _; split]].
    + unfold convertWebURLToLocal.
      replace (starts_with HTTPS (URL_PROTOCOL ++ drop (length HTTPS) url))
        with false; reflexivity.
    + rewrite Hs at 2. rewrite !length_app. reflexivity.
    + rewrite Hs. reflexivity.
  - split; [| split; [reflexivity | discriminate]].
    unfold convertWebURLToLocal. by rewrite Hs.
Qed.

Lemma convertWebURLToLocal_spec_witness :
  length (convertWebURLToLocal Cases.web_url) = S (length Cases.web_url)
  /\ getPageIDFromURL Cases.web_url = None.
Proof.
  apply (proj2 (proj2 (convertWebURLToLocal_spec Cases.web_url))).
  reflexivity.
Defined.

End PageURLs.

(** ** The payload and the limits of the remote service *)

Section PayloadLimits.

Import Notion NotionMethods Limits.

Variable host : Host.

Lemma buildRichText_limits (content : option jsstring) :
  within_limits (TextArray (buildRichText content)).
Proof.
  destruct content as [[| u text] |]; unfold within_limits;
    cbn [buildRichText length]; (split; [lia |]); try by constructor.
  constructor; [| constructor]. rewrite truncate_length.
  unfold TEXT_CONTENT_MAX_LENGTH. cbn [length]. lia.
Qed.

Lemma sanitize_no_comma (text : jsstring) : COMMA ∉ sanitizeSelectOption text.
Proof.
  unfold sanitizeSelectOption, replace_all. intros Hin.
  apply list_elem_of_fmap in Hin as (u & Hu & _).
  by apply (sanitize_unit u).
Qed.

Lemma definition_limits (item : NoteroItem) (d : Definition_) :
  d ∈ propertyDefinitions item -> within_limits (buildRequest d tt).
Proof.
  intros Hd. each_definition Hd; cbn [buildRequest];
    try apply buildRichText_limits; try exact I.
  cbn. apply Forall_forall. intros name Hname.
  apply list_elem_of_fmap in Hname as (tag & -> & _).
  apply sanitize_no_comma.
Qed.

(** A payload that was built is [assemble] of the schema stored by then. *)
Lemma buildItemProperties_inv (item : NoteroItem) (s s' : Store)
    (payload : DatabasePageProperties) :
  buildItemProperties host item s = (Ok payload, s') ->
  exists schema,
    payload = assemble schema item
    /\ _databaseProperties (this s') = Some schema.
Proof.
  unfold buildItemProperties, bind.
  destruct (_databaseProperties (this s)) as [props |] eqn:Hc.
  - rewrite (getDatabaseProperties_hit host s props Hc).
    intros [= <- <-]. by exists props.
  - rewrite (getDatabaseProperties_miss host s Hc).
    destruct (databases_retrieve host (trace s) (databaseID (this s)))
      as [props | e]; [| discriminate].
    intros [= <- <-]. by exists props.
Qed.

(** X4: every payload the mapper builds respects the limits of the remote
    service: each rich text, the page title included, is empty or one text
    object of 1 to 2000 code units, and no multi-select name holds a
    comma. *)
Theorem payload_within_limits (item : NoteroItem) (s s' : Store)
    (payload : DatabasePageProperties) :
  buildItemProperties host item s = (Ok payload, s') ->
  forall k p, payload !! k = Some p -> within_limits (prequest p).
Proof.
  intros Hrun k p Hp.
  destruct (buildItemProperties_inv item s s' payload Hrun)
    as (schema & -> & _).
  destruct (decide (k = "title")) as [-> | Hk].
  - rewrite assemble_title in Hp. injection Hp as <-.
    apply buildRichText_limits.
  - destruct (assemble_sound schema item k p Hp Hk) as (d & Hd & _ & _ & ->).
    by apply (definition_limits item).
Qed.

(** X5: a retrieval that fails is not remembered: the error goes to the
    caller, after the client has had its logger report the failure, nothing
    is stored, and the next call asks the service again. *)
Theorem failed_retrieval_is_retried (s : Store) (e : JSError) :
  _databaseProperties (this s) = None ->
  databases_retrieve host (trace s) (databaseID (this s)) = Throw e ->
  let db := databaseID (this s) in
  let failed := DatabasesRetrieve db :: failure_log host (client (this s)) e in
  let first := getDatabaseProperties host s in
  let second := getDatabaseProperties host (snd first) in
  fst first = Throw e /\
  _databaseProperties (this (snd first)) = None /\
  trace (snd first) = trace s ++ failed /\
  trace (snd second)
  = trace s ++ failed
    ++ requested host (client (this s)) (DatabasesRetrieve db) (fst second) /\
  count is_retrieve (trace (snd second))
  = S (S (count is_retrieve (trace s))) /\
  fst second = databases_retrieve host (trace s ++ failed) db.
Proof.
  intros Hc Hr db failed first second. unfold second, first.
  rewrite (getDatabaseProperties_miss host s Hc), Hr. cbn [fst snd].
  split; [reflexivity |]. split; [exact Hc |]. split; [reflexivity |].
  rewrite (getDatabaseProperties_miss host (extend s _) Hc).
  cbn [extend this trace]. fold db. fold failed.
  assert (Hlogs : forall x,
    count is_retrieve (failure_log host (client (this s)) x) = 0%nat).
  { intros x. unfold count.
    rewrite (filter_none is_log is_retrieve); [reflexivity | by intros [] |].
    apply failure_log_logs. }
  destruct (databases_retrieve host (trace s ++ failed) db);
    cbn [fst snd trace extend requested stored client]; rewrite <- ?app_assoc;
    (split; [reflexivity |]); (split; [| reflexivity]); unfold failed;
    rewrite !count_app; change (?x :: ?l) with ([x] ++ l);
    rewrite ?count_app, ?Hlogs; cbn; lia.
Qed.

End PayloadLimits.

(** ** The calls a batch makes *)

Section BatchCalls.

Import Notion NotionMethods Notero Engine.

Variable host : Host.
Variable prefs : Prefs.

Lemma buildItemProperties_cases (item : NoteroItem) (s : Store) :
  match _databaseProperties (this s) with
  | Some props =>
      buildItemProperties host item s = (Ok (assemble props item), s)
  | None =>
      match databases_retrieve host (trace s) (databaseID (this s)) with
      | Ok props =>
          buildItemProperties host item s
          = (Ok (assemble props item),
             {| this := stored (this s) props;
                trace := trace s
                         ++ [DatabasesRetrieve (databaseID (this s))] |})
      | Throw e =>
          buildItemProperties host item s
          = (Throw e,
             extend s
               (DatabasesRetrieve (databaseID (this s))
                :: failure_log host (client (this s)) e))
      end
  end.
Proof.
  unfold buildItemProperties, bind.
  destruct (_databaseProperties (this s)) as [props |] eqn:Hc.
  - by rewrite (getDatabaseProperties_hit host s props Hc).
  - rewrite (getDatabaseProperties_miss host s Hc).
    by destruct (databases_retrieve host (trace s) (databaseID (this s))).
Qed.

(** X6: when the schema cannot be retrieved, the upsert of an item makes no
    update and no create call and writes nothing to the item: the error of
    the retrieval is what [saveItemToDatabase] and [saveItemToNotion]
    throw, after the retrieval call and what the logger of the client
    writes of its failure. *)
Theorem upsert_needs_schema (item : NoteroItem) (s : Store) (e : JSError) :
  _databaseProperties (this s) = None ->
  databases_retrieve host (trace s) (databaseID (this s)) = Throw e ->
  let failed :=
    DatabasesRetrieve (databaseID (this s))
    :: failure_log host (client (this s)) e in
  saveItemToDatabase host item s = (Throw e, extend s failed)
  /\ saveItemToNotion host item s = (Throw e, extend s failed)
  /\ List.filter (fun x => is_update x || is_create x || is_write x) failed
     = [].
Proof.
  intros Hc Hr failed. pose proof (buildItemProperties_cases item s) as Hb.
  rewrite Hc, Hr in Hb.
  assert (Hdb : saveItemToDatabase host item s = (Throw e, extend s failed)).
  { unfold saveItemToDatabase, bind. by rewrite Hb. }
  split; [exact Hdb |]. split.
  - unfold saveItemToNotion, bind. by rewrite Hdb.
  - unfold failed. cbn [List.filter is_update is_create is_write orb].
    apply (filter_none is_log); [by intros [] | apply failure_log_logs].
Qed.

Lemma count_snoc (kind : Effect -> bool) (t : Trace) (e : Effect) :
  count kind (t ++ [e]) = (count kind t + if kind e then 1 else 0)%nat.
Proof. rewrite count_app. unfold count. cbn. by destruct (kind e). Qed.

Lemma count_cons (kind : Effect -> bool) (e : Effect) (t : Trace) :
  count kind (e :: t) = ((if kind e then 1 else 0) + count kind t)%nat.
Proof. unfold count. cbn. by destruct (kind e). Qed.

Lemma count_failure_log (kind : Effect -> bool) (c : Client) (e : JSError) :
  (forall x, is_log x = true -> kind x = false) ->
  count kind (failure_log host c e) = 0%nat.
Proof.
  intros Hk. unfold count.
  by rewrite (filter_none is_log kind _ Hk (failure_log_logs host c e)).
Qed.

Lemma count_requested {A} (kind : Effect -> bool) (c : Client) (e : Effect)
    (r : Result A) :
  (forall x, is_log x = true -> kind x = false) ->
  count kind (requested host c e r) = if kind e then 1%nat else 0%nat.
Proof.
  intros Hk. unfold requested. rewrite count_cons.
  destruct r; [| rewrite (count_failure_log kind _ _ Hk)];
    destruct (kind e); reflexivity.
Qed.

Lemma for_page_failure_log (item : NoteroItem) (c : Client) (e : JSError) :
  Forall (for_page_of item) (failure_log host c e).
Proof.
  eapply Forall_impl; [apply failure_log_logs |]. by intros [].
Qed.

Lemma for_page_requested {A} (item : NoteroItem) (c : Client) (e : Effect)
    (r : Result A) :
  for_page_of item e -> Forall (for_page_of item) (requested host c e r).
Proof.
  intros He. unfold requested. constructor; [exact He |].
  destruct r; [constructor | apply for_page_failure_log].
Qed.

Lemma only_count {A} (kind kind' : Effect -> bool) (m : M A) (s s' : Store)
    (r : Result A) :
  only kind m -> (forall e, kind e = true -> kind' e = false) ->
  m s = (r, s') -> count kind' (trace s') = count kind' (trace s).
Proof.
  intros Hm Hk Hrun. destruct (Hm _ _ _ Hrun) as (extra & -> & Hextra).
  rewrite count_app. unfold count at 2.
  rewrite (filter_none kind kind' extra Hk Hextra). cbn. lia.
Qed.

Lemma keeps_this_ret {A} (a : A) : keeps_this (ret a).
Proof. by intros s r s' [= <- <-]. Qed.

Lemma keeps_this_call {A} (e : Effect) (answer : Trace -> Result A) :
  keeps_this (call e answer).
Proof. by intros s r s' [= <- <-]. Qed.

Lemma keeps_this_bind {A B} (m : M A) (k : A -> M B) :
  keeps_this m -> (forall a, keeps_this (k a)) -> keeps_this (bind m k).
Proof.
  intros Hm Hk s r s'. unfold bind.
  destruct (m s) as [[a | e] s1] eqn:Hrun; intros Hr.
  - rewrite (Hk a _ _ _ Hr). by apply (Hm _ _ _ Hrun).
  - injection Hr as <- <-. by apply (Hm _ _ _ Hrun).
Qed.

(** What [saveItemToNotion] does after the upsert. *)
Lemma writes_only (item : NoteroItem) (response : PageResponse) :
  let writes : M unit :=
    bind (call (SaveNotionTag (id item))
            (fun t => saveNotionTag host t item))
      (fun _ =>
         match page_url response with
         | Some url =>
             call (SaveNotionLinkAttachment (id item) url)
               (fun t => saveNotionLinkAttachment host t item url)
         | None => ret tt
         end) in
  only is_write writes /\ keeps_this writes.
Proof.
  split.
  - apply only_bind; [by apply only_call |]. intros _.
    destruct (page_url response); [by apply only_call | apply only_ret].
  - apply keeps_this_bind; [apply keeps_this_call |]. intros _.
    destruct (page_url response); [apply keeps_this_call |].
    apply keeps_this_ret.
Qed.

(** The calls of [saveItemToDatabase] once the payload is built. *)
Lemma saveItemToDatabase_calls (item : NoteroItem) (s s1 s' : Store)
    (properties : DatabasePageProperties) (r : Result PageResponse) :
  buildItemProperties host item s = (Ok properties, s1) ->
  saveItemToDatabase host item s = (r, s') ->
  exists more,
    trace s' = trace s1 ++ more /\ this s' = this s1 /\
    one_upsert item more /\ count is_retrieve more = 0%nat.
Proof.
  intros Hbuild Hrun.
  destruct (saveItemToDatabase_run host item s s1 properties Hbuild)
    as [Hcreate Hupdate].
  destruct (has_pageID (getNotionPageID item)) eqn:Hid.
  - destruct (getNotionPageID item) as [pid |] eqn:Hpid; [| discriminate].
    assert (Hne : pid <> "").
    { cbn in Hid. by apply negb_true_iff, String.eqb_neq in Hid. }
    specialize (Hupdate pid eq_refl Hne). cbn zeta in Hupdate.
    destruct (pages_update host (trace s1) pid properties) as [a | e].
    + rewrite Hupdate in Hrun. injection Hrun as <- <-.
      eexists. split; [reflexivity |]. split; [reflexivity |].
      unfold one_upsert. rewrite !count_cons. cbn.
      repeat split; try lia. by repeat constructor.
    + destruct (isObjectNotFound e); rewrite Hupdate in Hrun;
        injection Hrun as <- <-; (eexists; split; [reflexivity |]);
        (split; [reflexivity |]); unfold one_upsert;
        rewrite !count_cons, ?count_app, ?count_requested,
          !count_failure_log by (by intros []);
        cbn; repeat split; try lia.
      * constructor; [exact Hpid |]. apply Forall_app.
        split; [apply for_page_failure_log | by apply for_page_requested].
      * constructor; [exact Hpid | apply for_page_failure_log].
  - rewrite (Hcreate eq_refl) in Hrun. injection Hrun as <- <-.
    eexists. split; [reflexivity |]. split; [reflexivity |].
    unfold one_upsert. rewrite !count_requested by (by intros []). cbn.
    repeat split; try lia. by apply for_page_requested.
Qed.

Lemma one_upsert_app (item : NoteroItem) (quiet body : Trace) :
  Forall (fun e => is_update e || is_create e || is_setText e = false) quiet ->
  one_upsert item body -> one_upsert item (quiet ++ body).
Proof.
  intros Hq (Hu & Hc & Hs & Hp).
  assert (Hnone : forall kind,
    (forall e, is_update e || is_create e || is_setText e = false ->
               kind e = false) ->
    count kind quiet = 0%nat).
  { intros kind Hk. unfold count.
    rewrite (filter_none
      (fun e => negb (is_update e || is_create e || is_setText e)) kind);
      [reflexivity | |].
    - intros e He. apply Hk. by apply negb_true_iff.
    - eapply Forall_impl; [exact Hq |]. intros e He. cbn beta.
      by apply negb_true_iff. }
  unfold one_upsert. rewrite !count_app.
  rewrite (Hnone is_update), (Hnone is_create), (Hnone is_setText).
  - repeat split; try done. apply Forall_app. split; [| exact Hp].
    eapply Forall_impl; [exact Hq |]. by intros [].
  - by intros [].
  - by intros [].
  - by intros [].
Qed.

Lemma one_upsert_snoc (item : NoteroItem) (body quiet : Trace) :
  one_upsert item body ->
  Forall (fun e => is_update e || is_create e || is_setText e = false) quiet ->
  one_upsert item (body ++ quiet).
Proof.
  intros (Hu & Hc & Hs & Hp) Hq.
  assert (Hnone : forall kind,
    (forall e, is_update e || is_create e || is_setText e = false ->
               kind e = false) ->
    count kind quiet = 0%nat).
  { intros kind Hk. unfold count.
    rewrite (filter_none
      (fun e => negb (is_update e || is_create e || is_setText e)) kind);
      [reflexivity | |].
    - intros e He. apply Hk. by apply negb_true_iff.
    - eapply Forall_impl; [exact Hq |]. intros e He. cbn beta.
      by apply negb_true_iff. }
  unfold one_upsert. rewrite !count_app.
  rewrite (Hnone is_update), (Hnone is_create), (Hnone is_setText).
  - repeat split; try lia. apply Forall_app. split; [exact Hp |].
    eapply Forall_impl; [exact Hq |]. by intros [].
  - by intros [].
  - by intros [].
  - by intros [].
Qed.

Lemma saveItemToDatabase_body (item : NoteroItem) (s s' : Store)
    (r : Result PageResponse) :
  saveItemToDatabase host item s = (r, s') ->
  exists body, upsert_body item s s' (is_ok r) body.
Proof.
  intros Hrun. pose proof (buildItemProperties_cases item s) as Hb.
  unfold upsert_body.
  destruct (_databaseProperties (this s)) as [props |] eqn:Hc.
  - destruct (saveItemToDatabase_calls _ _ _ _ _ _ Hb Hrun)
      as (more & Ht & Hthis & Hone & Hre).
    exists more. rewrite Hthis. by split; [| split; [| split]].
  - destruct (databases_retrieve host (trace s) (databaseID (this s)))
      as [props | e].
    + destruct (saveItemToDatabase_calls _ _ _ _ _ _ Hb Hrun)
        as (more & Ht & Hthis & Hone & Hre).
      cbn [trace this] in Ht, Hthis.
      exists ([DatabasesRetrieve (databaseID (this s))] ++ more).
      split; [by rewrite Ht, <- app_assoc |]. split.
      * apply one_upsert_app; [by repeat constructor | exact Hone].
      * rewrite count_app, Hre. split; [reflexivity |]. intros _.
        rewrite Hthis. by eexists.
    + unfold saveItemToDatabase, bind in Hrun. rewrite Hb in Hrun.
      injection Hrun as <- <-. eexists. split; [reflexivity |].
      unfold one_upsert.
      rewrite !count_cons, !count_failure_log by (by intros []). cbn.
      repeat split; try lia; try discriminate.
      constructor; [exact I | apply for_page_failure_log].
Qed.

Lemma saveItemToNotion_body (item : NoteroItem) (s s' : Store)
    (r : Result unit) :
  saveItemToNotion host item s = (r, s') ->
  exists body, upsert_body item s s' (is_ok r) body.
Proof.
  unfold saveItemToNotion. unfold bind at 1.
  destruct (saveItemToDatabase host item s) as [[response | e] s1] eqn:Hdb.
  - intros Hrun. apply saveItemToDatabase_body in Hdb as (body & Hbody).
    destruct (writes_only item response) as [Honly Hkeep].
    cbn zeta in Honly, Hkeep.
    destruct (Honly _ _ _ Hrun) as (extra & Hextra & Hwrites).
    pose proof (Hkeep _ _ _ Hrun) as Hthis.
    destruct Hbody as (Ht & Hone & Hcache).
    exists (body ++ extra). unfold upsert_body.
    split; [by rewrite Hextra, Ht, <- app_assoc |]. split.
    + apply one_upsert_snoc; [exact Hone |].
      eapply Forall_impl; [exact Hwrites |]. by intros [].
    + assert (Hre : count is_retrieve extra = 0%nat).
      { unfold count. by rewrite (filter_none is_write is_retrieve extra);
          [| by intros [] |]. }
      rewrite count_app, Hre, Nat.add_0_r, Hthis.
      destruct (_databaseProperties (this s)); [exact Hcache |].
      destruct Hcache as [Hcount Hsome]. split; [exact Hcount |].
      intros _. by apply Hsome.
  - intros [= <- <-]. by apply saveItemToDatabase_body in Hdb.
Qed.

Lemma stretch_eq (total position : nat) (body : Trace) :
  stretch total (position, body) = [SetText position total] ++ body.
Proof. reflexivity. Qed.

(** The attempts of the loop, one stretch for each: the positions count up
    from the one after [step], an attempt belongs to the item at its
    position, and the schema is retrieved in the first attempt when it is
    not stored and never otherwise. *)
Lemma saveItems_loop_stretches (total : nat) (items : list NoteroItem)
    (step : nat) (s s' : Store) (r : Result unit) :
  saveItems_loop host total step items s = (r, s') ->
  exists attempts : list (nat * Trace),
    trace s' = trace s ++ concat (stretch total <$> attempts) /\
    fst <$> attempts = seq (S step) (length attempts) /\
    (length attempts <= length items)%nat /\
    (is_ok r = true -> length attempts = length items) /\
    Forall2 (fun item attempt => one_upsert item (snd attempt))
      (take (length attempts) items) attempts /\
    count is_retrieve (concat (stretch total <$> attempts))
    = match _databaseProperties (this s), items with
      | None, _ :: _ => 1%nat
      | _, _ => 0%nat
      end.
Proof.
  revert step s. induction items as [| item items IH]; intros step s Hrun.
  - injection Hrun as <- <-. exists []. cbn. rewrite app_nil_r.
    repeat split; try done. by destruct (_databaseProperties (this s)).
  - cbn [saveItems_loop] in Hrun. unfold bind at 1 in Hrun.
    cbn [emit] in Hrun. unfold bind at 1 in Hrun.
    destruct (saveItemToNotion host item _) as [[[] | e] s1] eqn:Hitem.
    + apply saveItemToNotion_body in Hitem as (body & Ht & Hone & Hcache).
      unfold bind at 1 in Hrun. cbn [emit] in Hrun.
      apply IH in Hrun as (rest & Hrest & Hpos & Hlen & Hall & Hitems & Hre).
      cbn [trace this] in Ht, Hcache, Hrest, Hre.
      exists ((S step, body ++ [SetProgress (S step) total]) :: rest).
      cbn [fmap list_fmap concat fst snd length seq take].
      rewrite stretch_eq.
      split; [| split; [| split; [| split; [| split]]]].
      * rewrite Hrest, Ht. by rewrite <- !app_assoc.
      * by rewrite <- Hpos.
      * lia.
      * intros Hok. by rewrite (Hall Hok).
      * constructor; [| exact Hitems].
        apply one_upsert_snoc; [exact Hone | by repeat constructor].
      * rewrite !count_app, Hre.
        change (count is_retrieve [SetText (S step) total]) with 0%nat.
        change (count is_retrieve [SetProgress (S step) total]) with 0%nat.
        destruct (_databaseProperties (this s)).
        -- destruct Hcache as [-> ->]. lia.
        -- destruct Hcache as [-> Hsome].
           destruct (Hsome eq_refl) as [props ->]. lia.
    + injection Hrun as <- <-.
      apply saveItemToNotion_body in Hitem as (body & Ht & Hone & Hcache).
      cbn [trace this] in Ht, Hcache.
      exists [(S step, body)].
      cbn [fmap list_fmap concat fst snd length seq take].
      rewrite stretch_eq, app_nil_r.
      split; [| split; [| split; [| split; [| split]]]].
      * rewrite Ht. by rewrite <- !app_assoc.
      * reflexivity.
      * lia.
      * discriminate.
      * constructor; [exact Hone | constructor].
      * rewrite count_app.
        change (count is_retrieve [SetText (S step) total]) with 0%nat.
        destruct (_databaseProperties (this s)); by destruct Hcache as [-> _].
Qed.

Lemma count_stretches (kind : Effect -> bool) (total : nat)
    (attempts : list (nat * Trace)) :
  (forall k, kind (SetText k total) = false) ->
  Forall (fun attempt => (count kind (snd attempt) <= 1)%nat) attempts ->
  (count kind (concat (stretch total <$> attempts)) <= length attempts)%nat.
Proof.
  intros Hk. induction 1 as [| [position body] attempts Hone _ IH];
    [cbn; lia |].
  cbn [fmap list_fmap concat length snd] in *.
  rewrite stretch_eq, !count_app, count_cons, Hk.
  change (count kind []) with 0%nat. lia.
Qed.

Lemma count_report (kind : Effect -> bool) (e : JSError) (t : Trace) :
  (forall x, is_report x = true -> kind x = false) ->
  count kind (report e t) = count kind t.
Proof.
  intros Hk. unfold report. rewrite !count_app.
  assert (Hlog : forall text type, kind (Log text type) = false)
    by (intros; by apply Hk).
  unfold count at 2 3 4. cbn.
  rewrite !Hlog, (Hk SetError eq_refl), (Hk (AddDescription _) eq_refl).
  destruct (stack e); cbn; rewrite ?Hlog; cbn; lia.
Qed.

(** The four ways a call of [saveItemsToNotion] can go. *)
Lemma saveItemsToNotion_cases (itemIDs : list Z) (t : Trace) :
  let result := saveItemsToNotion host prefs itemIDs t in
  let items := Items_getAll host itemIDs in
  let opened :=
    t ++ [ChangeHeadline "Saving items to Notion..."; ShowProgressWindow;
          NewItemProgress] in
  (items = [] /\ result = t) \/
  (items <> [] /\ exists e,
     getNotion host prefs = Throw e /\ result = report e opened) \/
  (items <> [] /\ exists notion s1,
     getNotion host prefs = Ok notion /\
     saveItems_loop host (length items) 0 items
       {| this := notion; trace := opened |} = (Ok tt, s1) /\
     result = trace s1 ++ [SetIcon; StartCloseTimer]) \/
  (items <> [] /\ exists notion s1 e,
     getNotion host prefs = Ok notion /\
     saveItems_loop host (length items) 0 items
       {| this := notion; trace := opened |} = (Throw e, s1) /\
     result = report e (trace s1)).
Proof.
  intros result items opened.
  assert (Hres : result = saveItemsToNotion host prefs itemIDs t)
    by reflexivity.
  clearbody result. unfold saveItemsToNotion in Hres.
  fold items in Hres. fold opened in Hres.
  destruct items as [| item rest] eqn:Hitems; [by left |]. right.
  destruct (getNotion host prefs) as [notion | e].
  - right. unfold bind at 1 in Hres.
    destruct (saveItems_loop host _ 0 _ _) as [[[] | e] s1] eqn:Hloop.
    + left. split; [done |]. exists notion, s1.
      split; [reflexivity |]. split; [done |]. rewrite Hres.
      unfold bind. cbn [emit trace]. by rewrite <- app_assoc.
    + right. split; [done |]. by exists notion, s1, e.
  - left. split; [done |]. by exists e.
Qed.

Lemma count_opened (kind : Effect -> bool) (t : Trace) :
  kind (ChangeHeadline "Saving items to Notion...") = false ->
  kind ShowProgressWindow = false -> kind NewItemProgress = false ->
  count kind
    (t ++ [ChangeHeadline "Saving items to Notion..."; ShowProgressWindow;
           NewItemProgress])
  = count kind t.
Proof.
  intros H1 H2 H3. rewrite count_app. unfold count at 2. cbn.
  rewrite H1, H2, H3. cbn. lia.
Qed.

Lemma getNotion_new (notion : Instance) :
  getNotion host prefs = Ok notion ->
  nonempty (notionToken prefs) = true /\
  nonempty (notionDatabaseID prefs) = true /\
  notion
  = Notion.new (default "" (notionToken prefs))
      (default "" (notionDatabaseID prefs)).
Proof.
  unfold getNotion. destruct (nonempty (notionToken prefs)); [| discriminate].
  destruct (nonempty (notionDatabaseID prefs)); [| discriminate].
  by intros [= <-].
Qed.

Lemma count_none (kinds kind : Effect -> bool) (t : Trace) :
  (forall e, kind e = true -> kinds e = true) ->
  List.filter kinds t = [] -> count kind t = 0%nat.
Proof.
  intros Hsub. induction t as [| e t IH]; [reflexivity |].
  cbn [List.filter]. destruct (kinds e) eqn:He; [discriminate |].
  intros Hnone. rewrite count_cons, (IH Hnone).
  destruct (kind e) eqn:Hk; [| reflexivity].
  apply Hsub in Hk. congruence.
Qed.

Lemma one_upsert_each (items : list NoteroItem)
    (attempts : list (nat * Trace)) :
  Forall2 (fun item attempt => one_upsert item (snd attempt)) items attempts ->
  Forall (fun attempt => (count is_update (snd attempt) <= 1)%nat) attempts
  /\ Forall (fun attempt => (count is_create (snd attempt) <= 1)%nat) attempts.
Proof.
  induction 1 as [| item attempt items attempts (Hu & Hc & _) _ [IHu IHc]];
    split; by constructor.
Qed.

(** The trace of a batch: what comes before the first attempt, one stretch
    for each attempt, and what comes after the last. *)
Lemma saveItemsToNotion_stretches (itemIDs : list Z) (t : Trace) :
  let result := saveItemsToNotion host prefs itemIDs t in
  let items := Items_getAll host itemIDs in
  let n := length items in
  exists (head : Trace) (attempts : list (nat * Trace)) (tail : Trace),
    result = t ++ head ++ concat (stretch n <$> attempts) ++ tail /\
    fst <$> attempts = seq 1 (length attempts) /\
    (length attempts <= n)%nat /\
    Forall2 (fun item attempt => one_upsert item (snd attempt))
      (take (length attempts) items) attempts /\
    List.filter (fun e => is_remote e || is_setText e) (head ++ tail) = [] /\
    count is_retrieve (concat (stretch n <$> attempts))
    = match getNotion host prefs, items with
      | Ok _, _ :: _ => 1%nat
      | _, _ => 0%nat
      end.
Proof.
  intros result items n.
  destruct (saveItemsToNotion_cases itemIDs t)
    as [[Hnil Hr] | [(Hne & e & Hn & Hr)
                    | [(Hne & notion & s1 & Hn & Hloop & Hr)
                      | (Hne & notion & s1 & e & Hn & Hloop & Hr)]]];
    cbn zeta in Hr; fold result in Hr; fold items in Hnil || fold items in Hne.
  - exists [], [], []. rewrite Hr, Hnil, !app_nil_r. cbn.
    split; [reflexivity |]. split; [reflexivity |]. split; [lia |].
    split; [constructor |]. split; [reflexivity |].
    by destruct (getNotion host prefs).
  - exists [ChangeHeadline "Saving items to Notion..."; ShowProgressWindow;
            NewItemProgress], [],
      ([Log (message e) "error"]
       ++ match stack e with
          | Some frames => [Log frames "error"]
          | None => []
          end
       ++ [SetError; AddDescription (message e)]).
    rewrite Hr, Hn. unfold report. cbn [fmap list_fmap concat length seq take].
    split; [by rewrite <- !app_assoc |]. split; [reflexivity |].
    split; [lia |]. split; [constructor |].
    split; [by destruct (stack e) | reflexivity].
  - pose proof Hn as Hok.
    apply getNotion_new in Hn as (_ & _ & Hnew). fold items n in Hloop.
    destruct (saveItems_loop_stretches _ _ _ _ _ _ Hloop)
      as (attempts & Ht & Hpos & Hlen & _ & Hitems & Hre).
    cbn [trace this] in Ht, Hre. rewrite Hnew in Hre.
    cbn [Notion.new _databaseProperties] in Hre.
    exists [ChangeHeadline "Saving items to Notion..."; ShowProgressWindow;
            NewItemProgress], attempts, [SetIcon; StartCloseTimer].
    rewrite Hr, Hok, Ht. split; [by rewrite <- !app_assoc |].
    by repeat split.
  - pose proof Hn as Hok.
    apply getNotion_new in Hn as (_ & _ & Hnew). fold items n in Hloop.
    destruct (saveItems_loop_stretches _ _ _ _ _ _ Hloop)
      as (attempts & Ht & Hpos & Hlen & _ & Hitems & Hre).
    cbn [trace this] in Ht, Hre. rewrite Hnew in Hre.
    cbn [Notion.new _databaseProperties] in Hre.
    exists [ChangeHeadline "Saving items to Notion..."; ShowProgressWindow;
            NewItemProgress], attempts,
      ([Log (message e) "error"]
       ++ match stack e with
          | Some frames => [Log frames "error"]
          | None => []
          end
       ++ [SetError; AddDescription (message e)]).
    rewrite Hr, Hok. unfold report. rewrite Ht.
    split; [by rewrite <- !app_assoc |].
    repeat split; try done. by destruct (stack e).
Qed.

(** X7: a batch makes its calls to the remote service item by item.  Its
    trace is made of what comes before the first attempt, one stretch for
    each attempted item, begun by the [setText] of its position, and what
    comes after the last; the stretch of an item holds at most one update
    call, for the page of that item, and at most one create call, and no
    call to the remote service is made outside the stretches.  So a batch
    retrieves the schema at most once and makes at most as many update
    calls and as many create calls as it has items. *)
Theorem saveItemsToNotion_budget (itemIDs : list Z) (t : Trace) :
  let result := saveItemsToNotion host prefs itemIDs t in
  let items := Items_getAll host itemIDs in
  let n := length items in
  (count is_retrieve result <= count is_retrieve t + 1)%nat /\
  (count is_update result <= count is_update t + n)%nat /\
  (count is_create result <= count is_create t + n)%nat /\
  exists (head : Trace) (attempts : list (nat * Trace)) (tail : Trace),
    result = t ++ head ++ concat (stretch n <$> attempts) ++ tail /\
    fst <$> attempts = seq 1 (length attempts) /\
    (length attempts <= n)%nat /\
    Forall2 (fun item attempt => one_upsert item (snd attempt))
      (take (length attempts) items) attempts /\
    List.filter (fun e => is_remote e || is_setText e) (head ++ tail) = [].
Proof.
  intros result items n.
  destruct (saveItemsToNotion_stretches itemIDs t)
    as (head & attempts & tail & Hr & Hpos & Hlen & Hitems & Hquiet & Hre).
  cbn zeta in Hr, Hlen, Hitems, Hre. subst result items n.
  assert (Hout : forall kind,
    (forall e, kind e = true -> is_remote e || is_setText e = true) ->
    count kind (saveItemsToNotion host prefs itemIDs t)
    = (count kind t
       + count kind
           (concat
              (stretch (length (Items_getAll host itemIDs)) <$> attempts)))%nat).
  { intros kind Hk. pose proof (count_none _ kind _ Hk Hquiet) as Hnone.
    rewrite count_app in Hnone. rewrite Hr, !count_app. lia. }
  destruct (one_upsert_each _ _ Hitems) as [Hu Hc].
  pose proof (count_stretches is_update (length (Items_getAll host itemIDs))
                attempts (fun _ => eq_refl) Hu).
  pose proof (count_stretches is_create (length (Items_getAll host itemIDs))
                attempts (fun _ => eq_refl) Hc).
  rewrite (Hout is_retrieve), (Hout is_update), (Hout is_create), Hre
    by (by intros []).
  split; [| split; [| split]]; try lia.
  - destruct (getNotion host prefs); [destruct (Items_getAll host itemIDs) |];
      lia.
  - by exists head, attempts, tail.
Qed.

(** C5 (amended): on one instance, a call that finds the schema stored
    returns it without a retrieval call, and so does every later call; a
    call that finds nothing stored issues one retrieval call and stores a
    successful answer, so that calls made one after the other retrieve the
    schema once; a call that starts while nothing is stored yet, which
    includes the time a first retrieval is in flight, issues a retrieval
    call of its own.  Every batch gets an instance of its own with nothing
    stored, so whatever earlier batches retrieved, a batch in which at least
    one identifier is that of an item, run with a complete configuration,
    retrieves the schema exactly once, and a batch with no such identifier
    or with an incomplete configuration makes no retrieval call. *)
Theorem getDatabaseProperties_memoizes (s : Store)
    (props : DatabaseProperties) (n : nat) :
  (_databaseProperties (this s) = Some props ->
     getDatabaseProperties_times host n s = (Ok (replicate n props), s)) /\
  (_databaseProperties (this s) = None ->
   databases_retrieve host (trace s) (databaseID (this s)) = Ok props ->
     exists s',
       getDatabaseProperties_times host (S n) s
       = (Ok (replicate (S n) props), s')
       /\ _databaseProperties (this s') = Some props
       /\ trace s' = trace s ++ [DatabasesRetrieve (databaseID (this s))]
       /\ count is_retrieve (trace s')
          = S (count is_retrieve (trace s))) /\
  (_databaseProperties (this s) = None ->
     getDatabaseProperties_start s
     = (None, extend s [DatabasesRetrieve (databaseID (this s))])
     /\ _databaseProperties (this (snd (getDatabaseProperties_start s)))
        = None) /\
  (forall notion,
     getNotion host prefs = Ok notion ->
     _databaseProperties notion = None) /\
  (forall itemIDs t,
     count is_retrieve (saveItemsToNotion host prefs itemIDs t)
     = (count is_retrieve t
        + match getNotion host prefs, Items_getAll host itemIDs with
          | Ok _, _ :: _ => 1
          | _, _ => 0
          end)%nat).
Proof.
  split; [| split; [| split; [| split]]].
  - apply getDatabaseProperties_times_hit.
  - intros Hc Hr. eexists. split; [| split; [| split]].
    + cbn [getDatabaseProperties_times]. unfold bind at 1.
      rewrite (getDatabaseProperties_miss host s Hc), Hr.
      unfold bind at 1.
      rewrite (getDatabaseProperties_times_hit host n _ props); reflexivity.
    + reflexivity.
    + reflexivity.
    + cbn [trace]. rewrite count_app. cbn. lia.
  - intros Hc. unfold getDatabaseProperties_start. rewrite Hc. by split.
  - intros notion Hn. by apply getNotion_new in Hn as (_ & _ & ->).
  - intros itemIDs t.
    destruct (saveItemsToNotion_stretches itemIDs t)
      as (head & attempts & tail & Hr & _ & _ & _ & Hquiet & Hre).
    cbn zeta in Hr, Hre. rewrite <- Hre, Hr, !count_app.
    assert (Hnone : count is_retrieve (head ++ tail) = 0%nat).
    { apply (count_none (fun e => is_remote e || is_setText e));
        [by intros [] | exact Hquiet]. }
    rewrite count_app in Hnone. lia.
Qed.

Lemma getNotion_missing :
  nonempty (notionToken prefs) = false
  \/ nonempty (notionDatabaseID prefs) = false ->
  getNotion host prefs
  = Throw
      (Error
         ("Missing "
          +:+ getLocalizedString host
                (if nonempty (notionToken prefs) then "notionDatabaseID"
                 else "notionToken"))).
Proof.
  unfold getNotion. destruct (nonempty (notionToken prefs)); cbn [negb].
  - intros [H | ->]; [discriminate | reflexivity].
  - reflexivity.
Qed.

(** X8: when the access token or the database identifier is missing or
    empty, a batch with at least one item makes no call to the remote
    service, attempts no item and writes to none: it opens the progress
    window and reports the missing preference, the token first.  With no
    item to save nothing happens at all. *)
Theorem missing_configuration (itemIDs : list Z) (t : Trace) :
  nonempty (notionToken prefs) = false
  \/ nonempty (notionDatabaseID prefs) = false ->
  let result := saveItemsToNotion host prefs itemIDs t in
  let missing :=
    if nonempty (notionToken prefs) then "notionDatabaseID"
    else "notionToken" in
  (Items_getAll host itemIDs = [] -> result = t) /\
  (Items_getAll host itemIDs <> [] ->
     result
     = report (Error ("Missing " +:+ getLocalizedString host missing))
         (t ++ [ChangeHeadline "Saving items to Notion...";
                ShowProgressWindow; NewItemProgress])
     /\ since is_remote t result = []
     /\ since is_write t result = []
     /\ since is_setText t result = []).
Proof.
  intros Hmissing result missing.
  pose proof (getNotion_missing Hmissing) as Hthrow. fold missing in Hthrow.
  destruct (saveItemsToNotion_cases itemIDs t)
    as [[Hnil Hr] | [(Hne & e & Hn & Hr)
                    | [(_ & notion & s1 & Hn & _)
                      | (_ & notion & s1 & e & Hn & _)]]];
    try congruence.
  - cbn zeta in Hr. fold result in Hr. split; [done |]. by intros [].
  - cbn zeta in Hr. fold result in Hr. split; [by intros ? |]. intros _.
    rewrite Hthrow in Hn. injection Hn as <-. rewrite Hr.
    split; [reflexivity |]. unfold since, report.
    rewrite <- !app_assoc, drop_app_length. by repeat split.
Qed.

Lemma since_app (kind : Effect -> bool) (t extra : Trace) :
  since kind t (t ++ extra) = List.filter kind extra.
Proof. unfold since. by rewrite drop_app_length. Qed.

Lemma saveItemToNotion_quiet (item : NoteroItem) :
  only (fun e => is_remote e || is_log e || is_write e)
    (saveItemToNotion host item).
Proof.
  unfold saveItemToNotion. apply only_bind.
  - apply (only_weaken (fun e => is_remote e || is_log e));
      [| apply saveItemToDatabase_only].
    intros e ->. reflexivity.
  - intros response. destruct (writes_only item response) as [Honly _].
    apply (only_weaken is_write); [| exact Honly].
    intros e ->. apply orb_true_r.
Qed.

Lemma saveItemToNotion_tags (item : NoteroItem) (s s' : Store) :
  saveItemToNotion host item s = (Ok tt, s') ->
  exists extra,
    trace s' = trace s ++ extra
    /\ List.filter is_tag extra = [SaveNotionTag (id item)].
Proof.
  unfold saveItemToNotion. unfold bind at 1.
  destruct (saveItemToDatabase host item s) as [[response | e] s1] eqn:Hdb;
    [| discriminate].
  destruct (saveItemToDatabase_only host item _ _ _ Hdb) as (x1 & E1 & F1).
  assert (Hx1 : List.filter is_tag x1 = []).
  { apply (filter_none (fun e => is_remote e || is_log e));
      [by intros [] | exact F1]. }
  unfold bind, call.
  destruct (saveNotionTag host (trace s1) item) as [[] | e]; [| discriminate].
  destruct (page_url response) as [url |].
  - destruct (saveNotionLinkAttachment host _ item url) as [[] | e];
      [| discriminate].
    intros [= <-]. cbn [trace]. eexists. rewrite E1, <- !app_assoc.
    split; [reflexivity |]. by rewrite List.filter_app, Hx1.
  - intros [= <-]. cbn [trace]. eexists. rewrite E1, <- !app_assoc.
    split; [reflexivity |]. by rewrite List.filter_app, Hx1.
Qed.

Lemma loop_tags (total : nat) (items : list NoteroItem) (step : nat)
    (s s' : Store) :
  saveItems_loop host total step items s = (Ok tt, s') ->
  exists extra,
    trace s' = trace s ++ extra /\
    List.filter is_tag extra = (fun item => SaveNotionTag (id item)) <$> items.
Proof.
  revert step s. induction items as [| b items IH]; intros step s Hok.
  - injection Hok as <-. exists []. by rewrite app_nil_r.
  - cbn [saveItems_loop] in Hok. unfold bind at 1 in Hok. cbn [emit] in Hok.
    unfold bind at 1 in Hok.
    destruct (saveItemToNotion host b _) as [[[] | e'] s1] eqn:Hb; [| done].
    destruct (saveItemToNotion_tags b _ _ Hb) as (x1 & E1 & F1).
    unfold bind at 1 in Hok. cbn [emit] in Hok.
    destruct (IH _ _ Hok) as (x2 & E2 & F2).
    exists ([SetText (S step) total] ++ x1 ++ [SetProgress (S step) total]
            ++ x2).
    split.
    + rewrite E2. cbn [trace]. rewrite E1. cbn [trace].
      by rewrite <- !app_assoc.
    + rewrite !List.filter_app, F1, F2. reflexivity.
Qed.

Lemma saveItems_loop_quiet (total : nat) (items : list NoteroItem)
    (step : nat) :
  only (fun e => negb (is_failure e)) (saveItems_loop host total step items).
Proof.
  revert step. induction items as [| b items IH]; intros step;
    [apply only_ret |].
  cbn [saveItems_loop]. apply only_bind; [by apply only_emit |]. intros _.
  apply only_bind.
  - apply (only_weaken (fun e => is_remote e || is_log e || is_write e));
      [by intros [] | apply saveItemToNotion_quiet].
  - intros _. apply only_bind; [by apply only_emit |]. intros _. apply IH.
Qed.

(** X9: when every item of a batch is saved, each item was attempted once
    and in the order of the batch and had its tag saved once, in the same
    order; the batch ends by setting the tick icon and starting the close
    timer, and the progress window is told of no failure: no [setError] and
    no [addDescription].  Nothing is said of the log, where the logger of
    the client writes a failed update that a create call made good. *)
Theorem saveItemsToNotion_succeeds (itemIDs : list Z) (notion : Instance)
    (t : Trace) (s1 : Store) :
  let items := Items_getAll host itemIDs in
  let result := saveItemsToNotion host prefs itemIDs t in
  items <> [] ->
  getNotion host prefs = Ok notion ->
  saveItems_loop host (length items) 0 items
    {| this := notion;
       trace := t ++ [ChangeHeadline "Saving items to Notion...";
                      ShowProgressWindow; NewItemProgress] |}
  = (Ok tt, s1) ->
  result = trace s1 ++ [SetIcon; StartCloseTimer] /\
  since is_setText t result
  = (fun k => SetText k (length items)) <$> seq 1 (length items) /\
  since is_tag t result = (fun item => SaveNotionTag (id item)) <$> items /\
  since is_failure t result = [].
Proof.
  intros items result Hne Hnotion Hloop.
  assert (Hr : result = trace s1 ++ [SetIcon; StartCloseTimer]).
  { destruct (saveItemsToNotion_cases itemIDs t)
      as [[Hnil _] | [(_ & e & Hn & _)
                     | [(_ & n' & s' & Hn & Hl & Hr)
                       | (_ & n' & s' & e & Hn & Hl & _)]]];
      cbn zeta in *.
    - by destruct Hne.
    - rewrite Hnotion in Hn. discriminate.
    - rewrite Hnotion in Hn. injection Hn as <-. fold items in Hl.
      rewrite Hloop in Hl. by injection Hl as <-.
    - rewrite Hnotion in Hn. injection Hn as <-. fold items in Hl.
      rewrite Hloop in Hl. discriminate. }
  split; [exact Hr |].
  destruct (loop_attempts host _ _ _ _ _ Hloop) as (x1 & E1 & F1).
  destruct (loop_tags _ _ _ _ _ Hloop) as (x2 & E2 & F2).
  destruct (saveItems_loop_quiet _ _ _ _ _ _ Hloop) as (x3 & E3 & F3).
  cbn [trace] in E1, E2, E3.
  assert (x2 = x1) as -> by (rewrite E1 in E2; by simplify_list_eq).
  assert (x3 = x1) as -> by (rewrite E1 in E3; by simplify_list_eq).
  rewrite Hr, E1, <- !app_assoc.
  rewrite !since_app, !List.filter_app, F1, F2.
  rewrite (filter_none (fun e => negb (is_failure e)) is_failure x1);
    [| intros e He; by apply negb_true_iff | exact F3].
  cbn. by rewrite !app_nil_r.
Qed.

End BatchCalls.

(** ** What the engine keeps and what it hands over *)

Section EngineRuns.

Import Notero Engine.

Variable host : Host.
Variable prefs : Prefs.

Lemma queued_enqueue (items : list Z) (st : State) :
  queued (enqueueItemsToSync items st)
  = match items with
    | [] => queued st
    | _ :: _ => Set_of (queued st ++ items)
    end.
Proof.
  destruct items as [| i items]; [reflexivity |].
  unfold enqueueItemsToSync, queued.
  by destruct (queuedSync st) as [[ids [tid |]] |].
Qed.

Lemma added_items_none (ids : list (list Z)) :
  loadSyncEnabledCollectionIDs host = [] -> added_items host ids = [].
Proof.
  intros Hnone. unfold added_items. rewrite Hnone.
  induction ids as [| collectionItem ids IH]; [reflexivity |].
  cbn [omap list_omap]. cbn [omap list_omap] in IH.
  destruct (collectionItem !! 0%nat); [| exact IH].
  destruct (collectionItem !! 1%nat); [| exact IH].
  destruct (Items_get host z0); [| exact IH].
  by rewrite andb_false_r.
Qed.

Lemma notify_submits (event type : string) (ids : list (list Z))
    (st : State) :
  notify host prefs event type ids st
  = enqueueItemsToSync (submitted host prefs (Notify event type ids)) st.
Proof.
  unfold notify, submitted.
  destruct (notify_handler prefs event type) as [[|] |]; [| | reflexivity].
  - unfold onAddItemsToCollection.
    destruct (loadSyncEnabledCollectionIDs host) eqn:Hc; [| by unfold added_items; rewrite Hc].
    by rewrite added_items_none.
  - unfold onModifyItems.
    destruct (loadSyncEnabledCollectionIDs host) eqn:Hc; [| by unfold modified_items; rewrite Hc].
    unfold modified_items. rewrite Hc.
    replace (List.filter _ _) with (@nil NoteroItem); [reflexivity |].
    symmetry. induction (Items_getAll host _) as [| item l IH]; [reflexivity |].
    cbn [List.filter]. rewrite IH.
    replace (existsb _ (getCollections item)) with false;
      [by rewrite andb_false_r |].
    symmetry. by induction (getCollections item).
Qed.

Lemma step_stable (st : State) (ev : Event) :
  stable st -> stable (step host prefs st ev).
Proof.
  intros (Hwf & Hs & Hb). split; [by apply step_wf |].
  assert (Henq : forall items,
    settled_queue (enqueueItemsToSync items st)
    /\ Forall (fun batch => NoDup batch /\ batch <> [])
         (batches (enqueueItemsToSync items st))).
  { intros items. destruct (decide (items = [])) as [-> | Hne]; [done |].
    destruct Hwf as (Ht & _). rewrite (enqueue_result items st Ht Hne).
    split; [| exact Hb]. by intros _ q [= <-]. }
  destruct ev as [event type ids | items | dt |]; cbn [step].
  - rewrite notify_submits. apply Henq.
  - apply Henq.
  - destruct (Z.leb_spec 0 dt) as [Hdt | Hdt].
    2: { unfold elapse. by rewrite (proj2 (Z.leb_gt _ _) Hdt). }
    destruct Hwf as (Ht & _ & Hq). unfold timer_of in Ht.
    unfold settled_queue in *.
    destruct (queuedSync st) as [[ids [tid |]] |] eqn:Hqs.
    + destruct Ht as (due & Ht & Hdue).
      destruct (Z.le_gt_cases due (clock st + dt)) as [Hfire | Hlate].
      * rewrite (elapse_fires dt st ids tid due Hdt Hqs Ht Hfire).
        destruct (syncInProgress st); cbn; (split; [done |]); [exact Hb |].
        apply Forall_app. split; [exact Hb |]. constructor; [| constructor].
        exact (Hq _ eq_refl).
      * rewrite elapse_idle;
          [| done | rewrite Ht; repeat constructor; cbn; lia].
        cbn. by rewrite Hqs.
    + rewrite elapse_idle; [| done | rewrite Ht; constructor]. cbn.
      by rewrite Hqs.
    + rewrite elapse_idle; [| done | rewrite Ht; constructor]. cbn.
      by rewrite Hqs.
  - destruct (syncInProgress st) eqn:Hflag.
    2: { rewrite saveSettled_idle by done. by split. }
    destruct (saveSettled_result host prefs st Hwf Hflag) as (batch & _ & ->).
    destruct Hwf as (_ & _ & Hq). unfold settled_queue.
    destruct (queuedSync st) as [[ids [tid |]] |] eqn:Hqs; cbn.
    + split; [| exact Hb]. by intros _ q [= <-].
    + split; [done |]. apply Forall_app. split; [exact Hb |].
      constructor; [| constructor]. exact (Hq _ eq_refl).
    + split; [done | exact Hb].
Qed.

Lemma run_snoc (evs : list Event) (ev : Event) (st : State) :
  run host prefs (evs ++ [ev]) st = step host prefs (run host prefs evs st) ev.
Proof. unfold run. by rewrite foldl_app. Qed.

Lemma run_stable (evs : list Event) : stable (run host prefs evs initial).
Proof.
  induction evs as [| ev evs IH] using rev_ind.
  - split; [apply initial_wf |]. split; [done | constructor].
  - rewrite run_snoc. by apply step_stable.
Qed.

(** X10: in every state the engine can reach, the queued change set has at
    least one identifier and no duplicates; at most one timeout is pending,
    it is the one of the queued change set and it is due within the
    debounce delay; a change set whose timer has fired exists only while a
    pass runs; and every batch handed over so far has at least one
    identifier and no duplicates. *)
Theorem reachable_invariants (evs : list Event) :
  let st := run host prefs evs initial in
  (forall q, queuedSync st = Some q -> NoDup (itemIDs q) /\ itemIDs q <> [])
  /\ (length (timers st) <= 1)%nat
  /\ (forall tid due, (tid, due) ∈ timers st ->
        (exists ids,
           queuedSync st = Some {| itemIDs := ids; timeoutID := Some tid |})
        /\ clock st < due <= clock st + SYNC_DEBOUNCE_MS)
  /\ (syncInProgress st = false ->
      forall q, queuedSync st = Some q -> timeoutID q <> None)
  /\ Forall (fun batch => NoDup batch /\ batch <> []) (batches st).
Proof.
  intros st. destruct (run_stable evs) as ((Ht & _ & Hq) & Hs & Hb).
  fold st in Ht, Hq, Hs, Hb. split; [exact Hq |].
  split; [| split; [| split; [exact Hs | exact Hb]]].
  - unfold timer_of in Ht.
    destruct (queuedSync st) as [[ids [tid |]] |];
      [destruct Ht as (due & -> & _) | rewrite Ht ..]; cbn; lia.
  - intros tid due Hin. unfold timer_of in Ht.
    destruct (queuedSync st) as [[ids [tid' |]] |];
      [| rewrite Ht in Hin; by apply elem_of_nil in Hin ..].
    destruct Ht as (due' & Ht & Hdue). rewrite Ht in Hin.
    apply list_elem_of_singleton in Hin. injection Hin as -> ->.
    split; [by exists ids | exact Hdue].
Qed.

Lemma elem_of_concat (x : Z) (ls : list (list Z)) :
  x ∈ concat ls <-> exists l, l ∈ ls /\ x ∈ l.
Proof.
  rewrite list_elem_of_In, in_concat. split; intros (l & H1 & H2);
    exists l; by rewrite ?list_elem_of_In in *.
Qed.

Lemma known_handed_over (x : Z) (ids : list Z) (bs : list (list Z)) :
  x ∈ concat (bs ++ [ids]) <-> x ∈ ids \/ x ∈ concat bs.
Proof.
  rewrite concat_app, elem_of_app. cbn. rewrite app_nil_r. tauto.
Qed.

(** One event adds to the known identifiers what it submits. *)
Lemma step_known (st : State) (ev : Event) (x : Z) :
  wf st ->
  x ∈ known (step host prefs st ev)
  <-> x ∈ known st \/ x ∈ submitted host prefs ev.
Proof.
  intros Hwf.
  assert (Henq : forall items,
    x ∈ known (enqueueItemsToSync items st) <-> x ∈ known st \/ x ∈ items).
  { intros items. unfold known. rewrite elem_of_app, queued_enqueue.
    destruct Hwf as (Ht & _).
    destruct items as [| i items].
    - rewrite elem_of_app, elem_of_nil. cbn. tauto.
    - rewrite (enqueue_result (i :: items) st Ht) by done.
      cbn [batches]. rewrite Set_of_elem, !elem_of_app. tauto. }
  assert (Hsame : forall st',
    queued st' = queued st -> batches st' = batches st ->
    x ∈ known st' <-> x ∈ known st \/ x ∈ @nil Z).
  { intros st' Hq Hb. unfold known. rewrite Hq, Hb, elem_of_nil. tauto. }
  assert (Hmove : forall st' ids,
    queued st = ids -> queued st' = [] -> batches st' = batches st ++ [ids] ->
    x ∈ known st' <-> x ∈ known st \/ x ∈ @nil Z).
  { intros st' ids Hq Hq' Hb. unfold known.
    rewrite Hq, Hq', Hb, !elem_of_app, known_handed_over, !elem_of_nil.
    tauto. }
  destruct ev as [event type ids | items | dt |]; cbn [step submitted].
  - rewrite notify_submits. apply Henq.
  - apply Henq.
  - destruct (Z.leb_spec 0 dt) as [Hdt | Hdt].
    2: { unfold elapse. rewrite (proj2 (Z.leb_gt _ _) Hdt). by apply Hsame. }
    destruct Hwf as (Ht & _). unfold timer_of in Ht.
    destruct (queuedSync st) as [[ids [tid |]] |] eqn:Hqs.
    + destruct Ht as (due & Ht & Hdue).
      destruct (Z.le_gt_cases due (clock st + dt)) as [Hfire | Hlate].
      * rewrite (elapse_fires dt st ids tid due Hdt Hqs Ht Hfire).
        destruct (syncInProgress st).
        -- apply Hsame; [| reflexivity]. unfold queued. by rewrite Hqs.
        -- apply (Hmove _ ids); [| reflexivity..]. unfold queued.
           by rewrite Hqs.
      * rewrite elapse_idle;
          [| done | rewrite Ht; repeat constructor; cbn; lia].
        by apply Hsame.
    + rewrite elapse_idle; [| done | rewrite Ht; constructor]. by apply Hsame.
    + rewrite elapse_idle; [| done | rewrite Ht; constructor]. by apply Hsame.
  - destruct (syncInProgress st) eqn:Hflag.
    2: { rewrite saveSettled_idle by done. by apply Hsame. }
    destruct (saveSettled_result host prefs st Hwf Hflag) as (batch & _ & ->).
    destruct (queuedSync st) as [[ids [tid |]] |] eqn:Hqs.
    + apply Hsame; [| reflexivity]. unfold queued. cbn. by rewrite Hqs.
    + apply (Hmove _ ids); [| reflexivity..]. unfold queued. by rewrite Hqs.
    + apply Hsame; [| reflexivity]. unfold queued. cbn. by rewrite Hqs.
Qed.

Lemma run_known (evs : list Event) (x : Z) :
  x ∈ known (run host prefs evs initial)
  <-> x ∈ concat (submitted host prefs <$> evs).
Proof.
  induction evs as [| ev evs IH] using rev_ind.
  - cbn. unfold known, queued. cbn. by rewrite !elem_of_nil.
  - rewrite run_snoc, step_known by apply run_wf, initial_wf.
    rewrite IH, fmap_app, concat_app, elem_of_app. cbn.
    by rewrite app_nil_r.
Qed.

(** X11: the engine neither loses nor invents an identifier: after any
    events, an identifier is queued or in a batch handed over exactly if
    some enqueue call or forwarded notification submitted it. *)
Theorem nothing_lost_nothing_invented (evs : list Event) (x : Z) :
  let st := run host prefs evs initial in
  (x ∈ queued st \/ exists batch, batch ∈ batches st /\ x ∈ batch)
  <-> exists ev, ev ∈ evs /\ x ∈ submitted host prefs ev.
Proof.
  intros st. pose proof (run_known evs x) as Hknown. fold st in Hknown.
  unfold known in Hknown. rewrite elem_of_app in Hknown.
  rewrite <- (elem_of_concat x (batches st)), Hknown.
  rewrite list_elem_of_In, in_concat. split.
  - intros (l & Hl & Hx). apply list_elem_of_In in Hl.
    apply list_elem_of_fmap in Hl as (ev & -> & Hev). exists ev.
    split; [exact Hev | by apply list_elem_of_In].
  - intros (ev & Hev & Hx). exists (submitted host prefs ev).
    split; [| by apply list_elem_of_In].
    apply list_elem_of_In, list_elem_of_fmap. by exists ev.
Qed.

(** X12: nothing stays queued for good: from any state the engine can
    reach, once the running pass (if any) has settled and the debounce
    delay has passed, the queue is empty, no timer is pending, and every
    identifier submitted so far is in a batch that was handed over. *)
Theorem queue_drains (evs : list Event) :
  let st :=
    run host prefs (evs ++ [SaveSettled; Elapse SYNC_DEBOUNCE_MS]) initial in
  queuedSync st = None /\ timers st = [] /\
  forall x ev, ev ∈ evs -> x ∈ submitted host prefs ev ->
    exists batch, batch ∈ batches st /\ x ∈ batch.
Proof.
  intros st.
  assert (Hempty : queuedSync st = None /\ timers st = []).
  { unfold st. change [SaveSettled; Elapse SYNC_DEBOUNCE_MS]
      with ([SaveSettled] ++ [Elapse SYNC_DEBOUNCE_MS]).
    rewrite app_assoc, !run_snoc. cbn [step].
    set (st0 := run host prefs evs initial).
    destruct (run_stable evs) as (Hwf & Hs & _). fold st0 in Hwf, Hs.
    assert (Hlast : forall s, wf s ->
      (forall q, queuedSync s = Some q -> timeoutID q <> None) ->
      queuedSync (elapse SYNC_DEBOUNCE_MS s) = None
      /\ timers (elapse SYNC_DEBOUNCE_MS s) = []
         \/ syncInProgress s = true /\ queuedSync s <> None).
    { intros s (Ht & _) Hq. unfold timer_of in Ht.
      destruct (queuedSync s) as [[ids [tid |]] |] eqn:Hqs.
      - destruct Ht as (due & Ht & Hdue).
        rewrite (elapse_fires _ s ids tid due) by (done || lia).
        destruct (syncInProgress s); [right | left]; done.
      - by destruct (Hq _ eq_refl).
      - left. rewrite elapse_idle by (done || rewrite Ht; constructor).
        cbn. by rewrite Hqs. }
    destruct (syncInProgress st0) eqn:Hflag.
    - destruct (saveSettled_result host prefs st0 Hwf Hflag)
        as (batch & _ & Hsettled).
      pose proof (saveSettled_wf host prefs st0 Hwf) as Hwf'.
      destruct Hwf as (Ht & _). unfold timer_of in Ht.
      destruct (queuedSync st0) as [[ids [tid |]] |] eqn:Hqs.
      + destruct Ht as (due & Ht & Hdue).
        rewrite Hsettled. erewrite elapse_fires;
          [| done | reflexivity | exact Ht | cbn; lia]. done.
      + rewrite Hsettled. rewrite elapse_idle;
          [done | done | cbn; rewrite Ht; constructor].
      + rewrite Hsettled. rewrite elapse_idle;
          [done | done | cbn; rewrite Ht; constructor].
    - rewrite saveSettled_idle by done.
      destruct (Hlast st0 Hwf (Hs Hflag)) as [Hdone | [Hrun _]];
        [exact Hdone | congruence]. }
  destruct Hempty as [Hq Ht]. split; [exact Hq |]. split; [exact Ht |].
  intros x ev Hev Hx.
  assert (Hknown : x ∈ known st).
  { apply run_known. rewrite fmap_app, concat_app, elem_of_app. left.
    apply elem_of_concat. exists (submitted host prefs ev).
    split; [| exact Hx]. apply list_elem_of_fmap. by exists ev. }
  unfold known, queued in Hknown. rewrite Hq in Hknown.
  cbn in Hknown. by apply elem_of_concat.
Qed.

End EngineRuns.

(** ** The debounce window and the notifier *)

Section Windows.

Import Notero Engine.

Variable host : Host.
Variable prefs : Prefs.

Lemma step_submits (st : State) (ev : Event) :
  match ev with
  | Notify _ _ _ | Enqueue _ =>
      step host prefs st ev
      = enqueueItemsToSync (submitted host prefs ev) st
  | _ => submitted host prefs ev = []
  end.
Proof. destruct ev; cbn [step submitted]; by rewrite ?notify_submits. Qed.

Lemma elapsed_after_bounds (evs : list Event) (elapsed : Z) :
  within_window host prefs elapsed evs = true ->
  0 <= elapsed < SYNC_DEBOUNCE_MS ->
  0 <= elapsed_after host prefs elapsed evs < SYNC_DEBOUNCE_MS.
Proof.
  revert elapsed. induction evs as [| ev evs IH]; intros elapsed Hw He;
    [exact He |].
  destruct ev as [event type ids | items | dt |];
    cbn [within_window elapsed_after] in *.
  - apply IH; [exact Hw |]. destruct (submitted _ _ _); [exact He |].
    unfold SYNC_DEBOUNCE_MS. lia.
  - apply IH; [exact Hw |]. destruct (submitted _ _ _); [exact He |].
    unfold SYNC_DEBOUNCE_MS. lia.
  - apply andb_prop in Hw as [Hw Hrest]. apply andb_prop in Hw as [H0 Hlt].
    apply Z.leb_le in H0. apply Z.ltb_lt in Hlt. apply IH; [exact Hrest | lia].
  - by apply IH.
Qed.

(** The events of a window keep one timer pending, due the full delay after
    the last call that carried an item, and grow the change set; no batch is
    handed over. *)
Lemma window_run (evs : list Event) (st : State) (l : list Z)
    (tid : positive) (elapsed : Z) :
  wf st ->
  within_window host prefs elapsed evs = true ->
  0 <= elapsed < SYNC_DEBOUNCE_MS ->
  queuedSync st = Some {| itemIDs := Set_of l; timeoutID := Some tid |} ->
  timers st = [(tid, clock st - elapsed + SYNC_DEBOUNCE_MS)] ->
  exists tid',
    let st' := run host prefs evs st in
    queuedSync st'
    = Some {| itemIDs :=
                Set_of (l ++ concat (submitted host prefs <$> evs));
              timeoutID := Some tid' |}
    /\ timers st'
       = [(tid',
           clock st' - elapsed_after host prefs elapsed evs
           + SYNC_DEBOUNCE_MS)]
    /\ batches st' = batches st.
Proof.
  revert st l tid elapsed.
  induction evs as [| ev evs IH]; intros st l tid elapsed Hwf Hw He Hq Ht.
  - exists tid. cbn. by rewrite app_nil_r.
  - assert (Hsubmit : forall items,
      within_window host prefs
        (match items with [] => elapsed | _ :: _ => 0 end) evs = true ->
      exists tid',
        let st' := run host prefs evs (enqueueItemsToSync items st) in
        queuedSync st'
        = Some {| itemIDs :=
                    Set_of (l ++ items
                            ++ concat (submitted host prefs <$> evs));
                  timeoutID := Some tid' |}
        /\ timers st'
           = [(tid',
               clock st'
               - elapsed_after host prefs
                   (match items with [] => elapsed | _ :: _ => 0 end) evs
               + SYNC_DEBOUNCE_MS)]
        /\ batches st' = batches st).
    { intros items Hrest. destruct items as [| i items].
      - exact (IH st l tid elapsed Hwf Hrest He Hq Ht).
      - assert (Hne : i :: items <> []) by done.
        destruct (IH (enqueueItemsToSync (i :: items) st) (l ++ i :: items)
                    (nextTimeoutID st) 0) as (tid' & H1 & H2 & H3).
        + by apply enqueue_wf.
        + exact Hrest.
        + unfold SYNC_DEBOUNCE_MS. lia.
        + rewrite (enqueue_result (i :: items) st (proj1 Hwf) Hne), Hq.
          cbn [queuedSync from_option itemIDs]. by rewrite Set_of_merge.
        + rewrite (enqueue_result (i :: items) st (proj1 Hwf) Hne).
          cbn [timers clock]. do 2 f_equal. lia.
        + exists tid'. cbn zeta in *. rewrite H1, H2, H3.
          rewrite <- app_assoc.
          by rewrite (enqueue_result (i :: items) st (proj1 Hwf) Hne). }
    pose proof (step_submits st ev) as Hstep.
    destruct ev as [event type ids | items | dt |];
      cbn [within_window elapsed_after fmap list_fmap concat run foldl] in *.
    + fold (run host prefs evs (step host prefs st (Notify event type ids))).
      rewrite Hstep. by apply Hsubmit.
    + fold (run host prefs evs (step host prefs st (Enqueue items))).
      rewrite Hstep. by apply Hsubmit.
    + apply andb_prop in Hw as [Hw Hrest]. apply andb_prop in Hw as [H0 Hlt].
      apply Z.leb_le in H0. apply Z.ltb_lt in Hlt.
      fold (run host prefs evs (step host prefs st (Elapse dt))).
      cbn [step submitted app].
      assert (Hidle : elapse dt st = set_clock (clock st + dt) st).
      { apply elapse_idle; [exact H0 |]. rewrite Ht. repeat constructor.
        cbn. lia. }
      destruct (IH (elapse dt st) l tid (elapsed + dt))
        as (tid' & H1 & H2 & H3);
        [by apply elapse_wf | exact Hrest | lia | by rewrite Hidle | |].
      * rewrite Hidle. cbn [timers set_clock clock]. rewrite Ht.
        do 2 f_equal. lia.
      * exists tid'. cbn zeta in *. rewrite H1, H2, H3.
        by rewrite Hidle.
    + fold (run host prefs evs (step host prefs st SaveSettled)).
      cbn [step submitted app].
      assert (Hsame : queuedSync (saveSettled host prefs st) = queuedSync st
                      /\ timers (saveSettled host prefs st) = timers st
                      /\ clock (saveSettled host prefs st) = clock st
                      /\ batches (saveSettled host prefs st) = batches st).
      { destruct (syncInProgress st) eqn:Hflag.
        - destruct (saveSettled_result host prefs st Hwf Hflag)
            as (batch & _ & ->).
          by rewrite Hq.
        - by rewrite saveSettled_idle. }
      destruct Hsame as (S1 & S2 & S3 & S4).
      destruct (IH (saveSettled host prefs st) l tid elapsed)
        as (tid' & H1 & H2 & H3);
        [by apply saveSettled_wf | exact Hw | exact He | by rewrite S1
        | by rewrite S2, S3 |].
      exists tid'. cbn zeta in *. by rewrite H1, H2, H3, S4.
Qed.

Lemma elem_of_submitted (x : Z) (evs : list Event) :
  x ∈ concat (submitted host prefs <$> evs)
  <-> exists ev, ev ∈ evs /\ x ∈ submitted host prefs ev.
Proof.
  split.
  - intros Hx. apply list_elem_of_In, in_concat in Hx as (items & Hitems & Hx).
    apply list_elem_of_In, list_elem_of_fmap in Hitems as (ev & -> & Hev).
    exists ev. split; [exact Hev | by apply list_elem_of_In].
  - intros (ev & Hev & Hx). apply list_elem_of_In, in_concat.
    exists (submitted host prefs ev). split; [| by apply list_elem_of_In].
    apply list_elem_of_In, list_elem_of_fmap. by exists ev.
Qed.


(** C10: with sync-on-modify enabled only a [modify] notification of type
    [item] reaches a handler: it goes to [onModifyItems] and the items that
    pass its filter are queued, while an addition to a collection changes
    nothing; with it disabled only an [add] notification of type
    [collection-item] reaches a handler: it goes to [onAddItemsToCollection]
    and the items that pass its filter are queued, while a modification
    changes nothing; a notification that reaches no handler changes
    nothing, and the two tests never hold together. *)
Theorem notify_exclusive (event type : string) (ids : list (list Z))
    (st : State) :
  let st' := notify host prefs event type ids st in
  (syncOnModifyItems prefs = true ->
     notify_handler prefs event type
     = (if String.eqb event "modify" && String.eqb type "item"
        then Some ModifyItems else None)
     /\ (event = "add" -> type = "collection-item" -> st' = st)
     /\ (event = "modify" -> type = "item" ->
         st' = onModifyItems host ids st
         /\ st' = enqueueItemsToSync (modified_items host ids) st
         /\ queued st'
            = match modified_items host ids with
              | [] => queued st
              | _ :: _ => Set_of (queued st ++ modified_items host ids)
              end)) /\
  (syncOnModifyItems prefs = false ->
     notify_handler prefs event type
     = (if String.eqb event "add" && String.eqb type "collection-item"
        then Some AddItemsToCollection else None)
     /\ (event = "modify" -> type = "item" -> st' = st)
     /\ (event = "add" -> type = "collection-item" ->
         st' = onAddItemsToCollection host ids st
         /\ st' = enqueueItemsToSync (added_items host ids) st
         /\ queued st'
            = match added_items host ids with
              | [] => queued st
              | _ :: _ => Set_of (queued st ++ added_items host ids)
              end)) /\
  (notify_handler prefs event type = None -> st' = st) /\
  isAddToCollection prefs event type && isModifyItem prefs event type = false.
Proof.
  intros st'.
  assert (Hsub : st'
    = enqueueItemsToSync (submitted host prefs (Notify event type ids)) st)
    by apply notify_submits.
  assert (Hqueued : queued st'
    = match submitted host prefs (Notify event type ids) with
      | [] => queued st
      | _ :: _ =>
          Set_of (queued st ++ submitted host prefs (Notify event type ids))
      end) by (rewrite Hsub; apply queued_enqueue).
  clearbody st'. cbn [submitted] in Hsub, Hqueued.
  assert (Hst' : st' = notify host prefs event type ids st).
  { rewrite Hsub. symmetry. apply notify_submits. }
  unfold notify in Hst'.
  unfold notify_handler, isAddToCollection, isModifyItem in *.
  split; [| split; [| split]].
  - intros Hon. rewrite Hon in *. cbn [negb andb] in *.
    split; [reflexivity |]. split.
    + by intros -> ->.
    + intros -> ->. cbn in Hsub, Hqueued, Hst'. by repeat split.
  - intros Hoff. rewrite Hoff in *. cbn [negb andb] in *. split; [| split].
    + by destruct (String.eqb event "add" && String.eqb type "collection-item").
    + by intros -> ->.
    + intros -> ->. cbn in Hsub, Hqueued, Hst'. by repeat split.
  - intros Hnone. by rewrite Hnone in Hst'.
  - by destruct (syncOnModifyItems prefs); cbn [negb andb];
      rewrite ?andb_false_r.
Qed.

End Windows.

(** ** Which items a notification queues *)

Section Notifications.

Import Notero Engine.

Variable host : Host.
Variable prefs : Prefs.

Lemma added_items_origin (ids : list (list Z)) (x : Z) :
  x ∈ added_items host ids ->
  exists item c collectionItem itemID,
    id item = x /\ isRegularItem item = true
    /\ c ∈ loadSyncEnabledCollectionIDs host
    /\ collectionItem ∈ ids /\ collectionItem !! 0%nat = Some c
    /\ collectionItem !! 1%nat = Some itemID
    /\ Items_get host itemID = Some item.
Proof.
  unfold added_items. intros Hx.
  apply list_elem_of_fmap in Hx as (item & -> & Hitem).
  apply list_elem_of_omap in Hitem as (collectionItem & Hin & Hsome).
  destruct (collectionItem !! 0%nat) as [c |] eqn:H0; [| discriminate].
  destruct (collectionItem !! 1%nat) as [itemID |] eqn:H1; [| discriminate].
  destruct (Items_get host itemID) as [item' |] eqn:Hget; [| discriminate].
  destruct (isRegularItem item') eqn:Hreg; [| discriminate].
  cbn [andb] in Hsome. case_bool_decide as Hc; [| discriminate].
  injection Hsome as ->. by exists item, c, collectionItem, itemID.
Qed.

Lemma modified_items_origin (ids : list (list Z)) (x : Z) :
  x ∈ modified_items host ids ->
  exists item c n,
    id item = x /\ isRegularItem item = true /\ deleted item = false
    /\ c ∈ loadSyncEnabledCollectionIDs host /\ c ∈ getCollections item
    /\ [n] ∈ ids /\ Items_get host n = Some item.
Proof.
  unfold modified_items. intros Hx.
  apply list_elem_of_fmap in Hx as (item & -> & Hitem).
  apply list_elem_of_In, filter_In in Hitem as [Hitem Hkeep].
  apply andb_true_iff in Hkeep as [Hkeep Hsome].
  apply andb_true_iff in Hkeep as [Hdel Hreg].
  apply negb_true_iff in Hdel.
  apply existsb_exists in Hsome as (c & Hc & Henabled).
  apply bool_decide_eq_true in Henabled.
  apply list_elem_of_In in Hitem. unfold Items_getAll in Hitem.
  apply list_elem_of_omap in Hitem as (n & Hn & Hget).
  apply list_elem_of_omap in Hn as (i & Hi & Hone).
  destruct i as [| n' [| ? ?]]; try discriminate. injection Hone as ->.
  exists item, c, n. repeat split; try done. by apply list_elem_of_In.
Qed.

(** X13: a notification queues only regular items of collections enabled
    for sync: for an addition, the item and the enabled collection named by
    the notification; for a modification, an item that is not deleted and
    is in some enabled collection.  With no collection enabled, no
    notification changes the engine. *)
Theorem notification_filter (event type : string) (ids : list (list Z))
    (st : State) (x : Z) :
  (loadSyncEnabledCollectionIDs host = [] ->
     notify host prefs event type ids st = st) /\
  (x ∈ queued (notify host prefs event type ids st) ->
     x ∈ queued st \/
     exists item c,
       id item = x /\ isRegularItem item = true
       /\ c ∈ loadSyncEnabledCollectionIDs host
       /\ match notify_handler prefs event type with
          | Some AddItemsToCollection =>
              exists collectionItem itemID,
                collectionItem ∈ ids /\ collectionItem !! 0%nat = Some c
                /\ collectionItem !! 1%nat = Some itemID
                /\ Items_get host itemID = Some item
          | Some ModifyItems =>
              deleted item = false /\ c ∈ getCollections item
              /\ exists n, [n] ∈ ids /\ Items_get host n = Some item
          | None => False
          end).
Proof.
  split.
  - intros Hnone. unfold notify, onAddItemsToCollection, onModifyItems.
    rewrite Hnone. by destruct (notify_handler prefs event type) as [[|] |].
  - rewrite notify_submits, queued_enqueue. unfold submitted.
    destruct (notify_handler prefs event type) as [[|] |]; [| | by left].
    + destruct (added_items host ids) as [| i l] eqn:Hadded; [by left |].
      rewrite Set_of_elem, elem_of_app, <- Hadded.
      intros [Hx | Hx]; [by left | right].
      apply added_items_origin in Hx
        as (item & c & ci & itemID & H1 & H2 & H3 & H4 & H5 & H6 & H7).
      exists item, c. repeat split; try done. by exists ci, itemID.
    + destruct (modified_items host ids) as [| i l] eqn:Hmod; [by left |].
      rewrite Set_of_elem, elem_of_app, <- Hmod.
      intros [Hx | Hx]; [by left | right].
      apply modified_items_origin in Hx
        as (item & c & n & H1 & H2 & H3 & H4 & H5 & H6 & H7).
      exists item, c. repeat split; try done. by exists n.
Qed.

End Notifications.

(** ** Patching a method once *)

Section Patching.

Import MonkeyPatch.

Variable F : Type.


End Patching.

(** ** The order of a change set *)

Section QueueOrder.

Import Notero Engine.

Variable host : Host.
Variable prefs : Prefs.

Lemma foldl_Set_add_prefix (l acc : list Z) :
  acc `prefix_of` foldl Set_add acc l.
Proof.
  revert acc. induction l as [| y l IH]; intros acc; [done |].
  cbn [foldl]. etrans; [| apply IH]. unfold Set_add.
  case_bool_decide; [done | by apply prefix_app_r].
Qed.

(** X15: an enqueue keeps what is queued in place: from any state the
    engine can reach, the queued identifiers stay where they are and the
    new ones come after them, so that a batch lists its identifiers in the
    order in which they were first enqueued. *)
Theorem enqueue_keeps_order (evs : list Event) (items : list Z) :
  let st := run host prefs evs initial in
  queued st `prefix_of` queued (step host prefs st (Enqueue items)).
Proof.
  intros st. cbn [step]. rewrite queued_enqueue.
  destruct items as [| i items]; [done |].
  assert (Hnd : NoDup (queued st)).
  { destruct (run_wf host prefs evs initial initial_wf) as (_ & _ & Hq).
    fold st in Hq. unfold queued.
    destruct (queuedSync st) as [q |]; [by apply Hq | constructor]. }
  unfold Set_of. rewrite foldl_app.
  change (foldl Set_add [] (queued st)) with (Set_of (queued st)).
  replace (Set_of (queued st)) with (queued st).
  - apply foldl_Set_add_prefix.
  - symmetry. unfold Set_of. by apply (foldl_Set_add_fresh (queued st) []).
Qed.

End QueueOrder.

(** ** The claims on concrete runs *)

Section Runs.

Import Notion NotionMethods Notero Engine Scenario.



(** The timer fires during the pass; the settling hands the batch over. *)
Lemma single_flight_witness :
  inflight
    (run host prefs
       [Enqueue [1]; Elapse 2000; Enqueue [7]; Elapse 2000; SaveSettled]
       initial)
  = [[7]].
Proof.
  refine (proj1 (proj1 (proj2 (proj2 (proj2
    (single_flight host prefs
       [Enqueue [1]; Elapse 2000; Enqueue [7]; Elapse 2000]))))
    _ [7] _)); reflexivity.
Defined.

(** C2 as stated fails when the pass settles before the timer of the new
    identifiers fires: the engine is idle again, the identifier 7 is still
    queued behind its pending timer, and only its firing starts the second
    pass. *)
Lemma settled_before_timer_goes_idle :
  let s :=
    run host prefs [Enqueue [1]; Elapse 2000; Enqueue [7]; SaveSettled]
      initial in
  syncInProgress s = false /\
  inflight s = [] /\
  batches s = [[1]] /\
  queuedSync s = Some {| itemIDs := [7]; timeoutID := Some 2%positive |} /\
  batches (step host prefs s (Elapse 2000)) = [[1]; [7]].
Proof. repeat split. Qed.

(** The stored page [R1] is gone: one update, then one create. *)
Lemma saveItemToDatabase_dispatch_witness :
  upsert_calls [] (trace (snd (saveItemToDatabase host item2 fresh)))
  = [PagesUpdate "R1" (assemble schema item2);
     PagesCreate "db" (assemble schema item2)]
  /\ upsert_calls [] (trace (snd (saveItemToDatabase host item1 fresh)))
     = [PagesCreate "db" (assemble schema item1)].
Proof.
  split.
  - pose proof (saveItemToDatabase_dispatch host item2 fresh) as H.
    cbv zeta in H.
    change (buildItemProperties host item2 fresh)
      with (@Ok DatabasePageProperties (assemble schema item2),
            {| this := stored (Notion.new "secret" "db") schema;
               trace := [DatabasesRetrieve "db"] |}) in H.
    cbv beta iota in H. destruct H as [_ H].
    exact (proj2 (H "R1" eq_refl ltac:(discriminate))).
  - pose proof (saveItemToDatabase_dispatch host item1 fresh) as H.
    cbv zeta in H.
    change (buildItemProperties host item1 fresh)
      with (@Ok DatabasePageProperties (assemble schema item1),
            {| this := stored (Notion.new "secret" "db") schema;
               trace := [DatabasesRetrieve "db"] |}) in H.
    cbv beta iota in H. destruct H as [H _].
    exact (proj2 (H eq_refl)).
Defined.

(** C3 as stated fails when the payload cannot be built: with the service
    out of reach, the upsert of an item that has no stored page identifier
    throws the error of the schema retrieval and makes no create call. *)
Lemma no_create_without_schema :
  getNotionPageID item1 = None /\
  fst (saveItemToDatabase Cases.offline item1 fresh) = Throw transient /\
  upsert_calls []
    (trace (snd (saveItemToDatabase Cases.offline item1 fresh)))
  = [].
Proof. repeat split. Qed.

Lemma buildItemProperties_follows_schema_witness :
  exists payload s',
    buildItemProperties host item1 fresh = (Ok payload, s') /\
    payload !! "Tags"
    = Some {| ptype := Some "multi_select"; pkey := "multi_select";
              prequest := MultiSelectValue [str "x;y"] |}.
Proof.
  destruct (buildItemProperties_follows_schema host item1 fresh schema)
    as (payload & s' & Hrun & _ & _ & Hin & _).
  - right. split; reflexivity.
  - exists payload, s'. split; [exact Hrun |].
    refine (Hin {| name := "Tags"; type := "multi_select";
                   buildRequest := fun _ =>
                     MultiSelectValue
                       (fmap (M := list) sanitizeSelectOption (getTags item1))
                |} _ _); [| reflexivity].
    unfold propertyDefinitions. do 8 right. left.
Defined.

(** C4 as stated fails on the key [title]: the payload for a schema with
    [Title] and [Tags] holds the three keys [title], [Title] and [Tags],
    and the schema has no property named [title]. *)
Lemma payload_holds_title_outside_schema :
  exists payload s',
    buildItemProperties host item1 fresh = (Ok payload, s') /\
    is_Some (payload !! "title") /\
    schema !! "title" = None /\
    dom payload = ({[ "title"; "Title"; "Tags" ]} : gset string).
Proof.
  exists (assemble schema item1). eexists.
  split; [reflexivity |]. split; [| split].
  - rewrite assemble_title. by eexists.
  - reflexivity.
  - vm_compute. reflexivity.
Qed.

Lemma getDatabaseProperties_memoizes_witness :
  (exists s',
     getDatabaseProperties_times host 3 fresh = (Ok (replicate 3 schema), s')
     /\ count is_retrieve (trace s') = 1%nat)
  /\ count is_retrieve (saveItemsToNotion host prefs [1; 2; 3] []) = 1%nat.
Proof.
  split.
  - destruct (proj1 (proj2
      (getDatabaseProperties_memoizes host prefs fresh schema 2))
        eq_refl eq_refl)
      as (s' & Hrun & _ & _ & Hcount).
    exists s'. split; [exact Hrun | exact Hcount].
  - exact (proj2 (proj2 (proj2 (proj2
      (getDatabaseProperties_memoizes host prefs fresh schema 0))))
        [1; 2; 3] []).
Defined.

(** C5 as stated fails twice over.  Two callers on one instance, the second
    starting before the first retrieval is answered, make two retrieval
    calls; and two batches, each with its own instance, make one retrieval
    call each. *)
Lemma retrieval_is_repeated :
  (let '(_, s1) := getDatabaseProperties_start fresh in
   let '(_, s2) := getDatabaseProperties_start s1 in
   let '(_, s3) := getDatabaseProperties_resume host (Ok schema) s2 in
   let '(_, s4) := getDatabaseProperties_resume host (Ok schema) s3 in
   count is_retrieve (trace s4) = 2%nat) /\
  count is_retrieve
    (effects
       (run host prefs
          [Enqueue [1]; Elapse 2000; SaveSettled;
           Enqueue [1]; Elapse 2000; SaveSettled] initial))
  = 2%nat.
Proof. split; vm_compute; reflexivity. Qed.

(** A batch of three; the update of the second item times out. *)
Lemma saveItemsToNotion_aborts_witness :
  attempts [] (saveItemsToNotion flaky prefs [1; 2; 3] [])
  = [SetText 1 3; SetText 2 3].
Proof.
  refine (proj1 (proj2
    (saveItemsToNotion_aborts flaky prefs [1; 2; 3] [item1] item2 [item3]
       (Notion.new "secret" "db") transient []
       (snd (saveItems_loop flaky 3 0 [item1]
               {| this := Notion.new "secret" "db";
                  trace := [ChangeHeadline "Saving items to Notion...";
                            ShowProgressWindow; NewItemProgress] |}))
       (snd (saveItemToNotion flaky item2
               (extend
                  (snd (saveItems_loop flaky 3 0 [item1]
                          {| this := Notion.new "secret" "db";
                             trace := [ChangeHeadline
                                         "Saving items to Notion...";
                                       ShowProgressWindow;
                                       NewItemProgress] |}))
                  [SetText 2 3])))
       _ _ _ _))); vm_compute; reflexivity.
Defined.



(** With sync-on-modify enabled an addition to a collection is ignored
    and a modification queues the items that pass the filter; with it
    disabled the addition queues its item. *)
Lemma notify_exclusive_witness :
  notify host modifying "add" "collection-item" [[10; 1]] initial = initial
  /\ queued (notify host modifying "modify" "item" [[1]; [2]] initial)
     = [1; 2]
  /\ queued (notify host prefs "add" "collection-item" [[10; 1]] initial)
     = [1].
Proof.
  split; [| split].
  - exact (proj1 (proj2 (proj1
      (notify_exclusive host modifying "add" "collection-item" [[10; 1]]
         initial) eq_refl)) eq_refl eq_refl).
  - exact (proj2 (proj2 (proj2 (proj2 (proj1
      (notify_exclusive host modifying "modify" "item" [[1]; [2]] initial)
      eq_refl)) eq_refl eq_refl))).
  - exact (proj2 (proj2 (proj2 (proj2 (proj1 (proj2
      (notify_exclusive host prefs "add" "collection-item" [[10; 1]]
         initial)) eq_refl)) eq_refl eq_refl))).
Defined.

End Runs.

(** ** The further properties on concrete runs *)

Section MoreRuns.

Import Notion NotionMethods Notero Engine Limits Scenario Cases.

Lemma payload_within_limits_witness :
  within_limits (TextArray [str "A, B"]).
Proof.
  apply (payload_within_limits host item1 fresh
           {| this := stored (Notion.new "secret" "db") schema;
              trace := [DatabasesRetrieve "db"] |}
           (assemble schema item1) eq_refl "Title"
           {| ptype := Some "rich_text"; pkey := "rich_text";
              prequest := TextArray [str "A, B"] |}).
  vm_compute. reflexivity.
Defined.

Lemma failed_retrieval_is_retried_witness :
  count is_retrieve
    (trace (snd (getDatabaseProperties offline
                   (snd (getDatabaseProperties offline fresh)))))
  = 2%nat.
Proof.
  exact (proj1 (proj2 (proj2 (proj2 (proj2
    (failed_retrieval_is_retried offline fresh transient
       eq_refl eq_refl)))))).
Defined.

Lemma upsert_needs_schema_witness :
  saveItemToNotion offline item2 fresh
  = (Throw transient,
     extend fresh
       (DatabasesRetrieve "db"
        :: failure_log offline (client (this fresh)) transient)).
Proof.
  exact (proj1 (proj2 (upsert_needs_schema offline item2 fresh transient
                         eq_refl eq_refl))).
Defined.

Lemma missing_configuration_witness :
  since is_remote [] (saveItemsToNotion host unconfigured [1; 2] []) = []
  /\ since is_setText [] (saveItemsToNotion host unconfigured [1; 2] []) = [].
Proof.
  destruct (proj2 (missing_configuration host unconfigured [1; 2] []
                     (or_introl eq_refl)))
    as (_ & Hremote & _ & Hattempts); [discriminate |].
  split; [exact Hremote | exact Hattempts].
Defined.

(** A batch of three is saved: no failure is shown, and the log holds the
    update of the second item, which failed before its page was created. *)
Lemma saveItemsToNotion_succeeds_witness :
  since is_tag [] (saveItemsToNotion host prefs [1; 2; 3] [])
  = [SaveNotionTag 1; SaveNotionTag 2; SaveNotionTag 3]
  /\ since is_failure [] (saveItemsToNotion host prefs [1; 2; 3] []) = []
  /\ count is_log (saveItemsToNotion host prefs [1; 2; 3] []) = 1%nat.
Proof.
  destruct
    (saveItemsToNotion_succeeds host prefs [1; 2; 3]
       (Notion.new "secret" "db") []
       (snd (saveItems_loop host 3 0 [item1; item2; item3]
               {| this := Notion.new "secret" "db";
                  trace := [ChangeHeadline "Saving items to Notion...";
                            ShowProgressWindow; NewItemProgress] |})))
    as (_ & _ & Htags & Hquiet).
  - discriminate.
  - reflexivity.
  - vm_compute. reflexivity.
  - split; [exact Htags |]. split; [exact Hquiet |].
    vm_compute. reflexivity.
Defined.

Lemma reachable_invariants_witness :
  NoDup [1; 2] /\ [1; 2] <> @nil Z.
Proof.
  exact (proj1 (reachable_invariants host prefs [Enqueue [1; 1; 2]])
           {| itemIDs := [1; 2]; timeoutID := Some 1%positive |} eq_refl).
Defined.

Lemma nothing_lost_nothing_invented_witness :
  let st :=
    run host prefs [Enqueue [1]; Elapse 2000; Enqueue [7]] initial in
  7 ∈ queued st \/ exists batch, batch ∈ batches st /\ 7 ∈ batch.
Proof.
  apply (proj2 (nothing_lost_nothing_invented host prefs
                  [Enqueue [1]; Elapse 2000; Enqueue [7]] 7)).
  exists (Enqueue [7]). split.
  - do 2 apply list_elem_of_further. apply list_elem_of_here.
  - apply list_elem_of_here.
Defined.

Lemma queue_drains_witness :
  exists batch,
    batch ∈ batches
              (run host prefs
                 [Enqueue [1]; Elapse 2000; Enqueue [7]; SaveSettled;
                  Elapse 2000] initial)
    /\ 7 ∈ batch.
Proof.
  apply (proj2 (proj2 (queue_drains host prefs
                         [Enqueue [1]; Elapse 2000; Enqueue [7]]))
           7 (Enqueue [7])).
  - do 2 apply list_elem_of_further. apply list_elem_of_here.
  - apply list_elem_of_here.
Defined.

Lemma notification_filter_witness :
  1 ∈ queued initial \/
  exists item c,
    id item = 1 /\ isRegularItem item = true
    /\ c ∈ loadSyncEnabledCollectionIDs host
    /\ exists collectionItem itemID,
         collectionItem ∈ [[10; 1]] /\ collectionItem !! 0%nat = Some c
         /\ collectionItem !! 1%nat = Some itemID
         /\ Items_get host itemID = Some item.
Proof.
  apply (proj2 (notification_filter host prefs "add" "collection-item"
                  [[10; 1]] initial 1)).
  apply list_elem_of_here.
Defined.

Lemma enqueue_keeps_order_witness :
  [3; 1] `prefix_of`
  queued (run host prefs
            [Enqueue [3; 1]; Elapse 100; Enqueue [1; 2; 3]] initial).
Proof.
  exact (enqueue_keeps_order host prefs
           [Enqueue [3; 1]; Elapse 100] [1; 2; 3]).
Defined.


End MoreRuns.
